(** * Billing contracts of a phone line (contract.py)

    A shallow embedding of the three contract classes of [contract.py]
    (month-to-month, term and prepaid) and of the two collaborators they
    use, the bill of a month and the call record.

    Modelling decisions.
    - Python objects that are shared and mutated (the bills) live in a
      store, a finite map from references to bill values; a contract holds
      a reference, never a copy.
    - A method is a computation over the world made of the receiver and
      the store.  It either returns ([Ok]) or raises ([Raise]); in both
      cases it hands back the world as it left it, so that what was
      mutated before an exception stays mutated, as in Python.
    - Amounts of money are Python floats.  The classes are written over
      an arithmetic [F] (literals, [+], [-], [*], [<]) with two instances:
      [float], the binary64 numbers the program computes with, and [Q],
      exact arithmetic.  What is proved for every arithmetic holds of the
      program; what is proved for [float] or for [Q] only says so.
    - Minutes, seconds, months and years are integers ([Z]);
      [ceil (d / 60.0)] is the integer ceiling of [d / 60], which is what
      the float computation gives for every duration below 2^53 seconds. *)

From Stdlib Require Import ZArith QArith Lqa Lia Floats.
From stdpp Require Import base option gmap strings.

Local Open Scope Z_scope.

(** ** Computations that mutate a world and may raise *)

Inductive outcome (S A : Type) : Type :=
  | Ok (a : A) (s : S)
  | Raise (s : S).
Arguments Ok {S A} a s.
Arguments Raise {S A} s.

Definition Exec (S A : Type) : Type := S -> outcome S A.

Section Exec.
Context {S : Type}.

Definition exec_ret {A : Type} (a : A) : Exec S A := fun s => Ok a s.

Definition exec_bind {A B : Type} (f : A -> Exec S B) (m : Exec S A) : Exec S B :=
  fun s => match m s with
           | Ok a s' => f a s'
           | Raise s' => Raise s'
           end.

Definition raise {A : Type} : Exec S A := fun s => Raise s.

Definition modify (f : S -> S) : Exec S unit := fun s => Ok tt (f s).

(** The world an outcome ends in, whether it returned or raised. *)
Definition final {A : Type} (o : outcome S A) : S :=
  match o with
  | Ok _ s => s
  | Raise s => s
  end.
End Exec.

#[global] Instance Exec_ret {S : Type} : MRet (Exec S) := @exec_ret S.
#[global] Instance Exec_bind {S : Type} : MBind (Exec S) := @exec_bind S.

(** ** Arithmetic on amounts *)

(** What [contract.py] does with amounts: it writes literals ([50.00],
    [0.05], and integers such as [25] or [0] used where a float is), adds,
    subtracts, multiplies and compares with [<] (or [>]). *)
Class Arith (F : Type) : Type := {
  lit : Q -> F;
  fadd : F -> F -> F;
  fsub : F -> F -> F;
  fmul : F -> F -> F;
  flt : F -> F -> Prop;
  flt_dec : forall x y : F, Decision (flt x y)
}.
#[global] Existing Instance flt_dec.

(** An [int] used in float arithmetic. *)
Definition of_int `{Arith F} (z : Z) : F := lit (inject_Z z).

(** Python's floats: IEEE 754 binary64, rounding to nearest, ties to even. *)
Module Binary64.
(** The float nearest to an integer. *)
Definition of_Z (z : Z) : float :=
  SF2Prim (binary_normalize prec emax z 0 false).

(** The float a literal denotes, the one nearest to its decimal value:
    the quotient of two integers that are floats is rounded once. *)
Definition lit (q : Q) : float :=
  PrimFloat.div (of_Z (Qnum q)) (of_Z (Zpos (Qden q))).

Definition lt (x y : float) : Prop := PrimFloat.ltb x y = true.

Definition pow2 (e : Z) : Q :=
  match e with
  | Z0 => 1%Q
  | Zpos p => inject_Z (2 ^ Zpos p)
  | Zneg p => (1 # (2 ^ p))%Q
  end.

(** The rational number a finite float is. *)
Definition value (x : float) : option Q :=
  match Prim2SF x with
  | S754_zero _ => Some 0%Q
  | S754_finite s m e =>
      Some (inject_Z (if s then Zneg m else Zpos m) * pow2 e)%Q
  | S754_infinity _ | S754_nan => None
  end.
End Binary64.

Definition Qlt_dec (x y : Q) : Decision (x < y)%Q :=
  match Qlt_le_dec x y with
  | left Hlt => left Hlt
  | right Hle => right (Qle_not_lt _ _ Hle)
  end.

(** Exact arithmetic, the amounts as decimal numbers. *)
#[global] Instance Arith_Q : Arith Q :=
  {| lit := fun q => q;
     fadd := Qplus;
     fsub := Qminus;
     fmul := Qmult;
     flt := Qlt;
     flt_dec := Qlt_dec |}.

(** The arithmetic of the program. *)
#[global] Instance Arith_binary64 : Arith float :=
  {| lit := Binary64.lit;
     fadd := PrimFloat.add;
     fsub := PrimFloat.sub;
     fmul := PrimFloat.mul;
     flt := Binary64.lt;
     flt_dec := fun x y => decide (PrimFloat.ltb x y = true) |}.

(** ** Dates and call records *)

Record date : Type := mkDate { year : Z; month : Z; day : Z }.

(** Modelled from the spec: the call record class [Call] of [call.py] is
    not part of the sources; the spec says it exposes [duration] in whole
    seconds. *)
Record Call : Type := mkCall { duration : Z }.

(** [ceil (d / 60.0)] for a whole number of seconds [d]: the least
    integer [n] with [d <= 60 * n] (see [ceil_minutes_le]). *)
Definition ceil_minutes (d : Z) : Z := - ((- d) / 60).

(** ** Constants of contract.py *)

Definition MTM_MONTHLY_FEE `{Arith F} : F := lit 50.
Definition TERM_MONTHLY_FEE `{Arith F} : F := lit 20.
Definition TERM_DEPOSIT `{Arith F} : F := lit 300.
Definition TERM_MINS : Z := 100.
Definition MTM_MINS_COST `{Arith F} : F := lit 0.05.
Definition TERM_MINS_COST `{Arith F} : F := lit 0.1.
Definition PREPAID_MINS_COST `{Arith F} : F := lit 0.025.

(** ** The bill of one month *)

(** Modelled from the spec: the class [Bill] of [bill.py] is not part of
    the sources.  The spec (section 6) gives it a fixed cost, a rate per
    minute tagged by a plan label, a count of billed minutes and a count
    of free minutes, four mutators and the query
    [total_cost = fixed costs + billed minutes * rate]; a new bill starts
    with every count at zero.  Method names are the ones [contract.py]
    calls. *)
Record Bill (F : Type) : Type := mkBill {
  billed_min : Z;
  free_min : Z;
  min_rate : F;
  fixed_cost : F;
  rate_label : string
}.
Arguments mkBill {F} billed_min free_min min_rate fixed_cost rate_label.
Arguments billed_min {F} b.
Arguments free_min {F} b.
Arguments min_rate {F} b.
Arguments fixed_cost {F} b.
Arguments rate_label {F} b.

Module Bill.
Section Methods.
Context `{Arith F}.

(** Modelled from the spec: [Bill()], a bill with nothing on it yet. *)
Definition new : Bill F :=
  {| billed_min := 0; free_min := 0; min_rate := lit 0; fixed_cost := lit 0;
     rate_label := "" |}.

(** Modelled from the spec: "adds a one-time or recurring flat charge". *)
Definition add_fixed_cost (cost : F) (b : Bill F) : Bill F :=
  {| billed_min := billed_min b; free_min := free_min b;
     min_rate := min_rate b; fixed_cost := fadd (fixed_cost b) cost;
     rate_label := rate_label b |}.

(** Modelled from the spec: "records the plan tag and per-minute rate". *)
Definition set_rates (label : string) (min_cost : F) (b : Bill F) : Bill F :=
  {| billed_min := billed_min b; free_min := free_min b;
     min_rate := min_cost; fixed_cost := fixed_cost b;
     rate_label := label |}.

(** Modelled from the spec: "accumulates paid usage minutes". *)
Definition add_billed_minutes (minutes : Z) (b : Bill F) : Bill F :=
  {| billed_min := billed_min b + minutes; free_min := free_min b;
     min_rate := min_rate b; fixed_cost := fixed_cost b;
     rate_label := rate_label b |}.

(** Modelled from the spec: "accumulates minutes consumed from a free
    pool (not charged)". *)
Definition add_free_minutes (minutes : Z) (b : Bill F) : Bill F :=
  {| billed_min := billed_min b; free_min := free_min b + minutes;
     min_rate := min_rate b; fixed_cost := fixed_cost b;
     rate_label := rate_label b |}.

(** Modelled from the spec: "fixed costs + (billed minutes x rate)". *)
Definition get_cost (b : Bill F) : F :=
  fadd (fixed_cost b) (fmul (of_int (billed_min b)) (min_rate b)).
End Methods.
End Bill.

(** ** Worlds: a receiver and the store of bills

    A method of [Bill] called on a reference updates the bill stored
    there; on a reference that holds no bill it raises, as a method
    called on [None] does. *)

Definition loc : Type := positive.

Record World (F C : Type) : Type := mkWorld {
  self : C;
  heap : gmap loc (Bill F)
}.
Arguments mkWorld {F C} self heap.
Arguments self {F C} w.
Arguments heap {F C} w.

Section WorldOps.
Context `{Arith F} {C : Type}.

Definition set_self (f : C -> C) : Exec (World F C) unit :=
  modify (fun w => mkWorld (f (self w)) (heap w)).

Definition get_self : Exec (World F C) C :=
  fun w => Ok (self w) w.

(** Using an attribute or a method of [o]: raises when [o] is [None]. *)
Definition deref {A : Type} (o : option A) : Exec (World F C) A :=
  fun w => match o with
           | Some a => Ok a w
           | None => Raise w
           end.

Definition bill_read (r : loc) : Exec (World F C) (Bill F) :=
  fun w => deref (heap w !! r) w.

Definition bill_update (f : Bill F -> Bill F) (r : loc) : Exec (World F C) unit :=
  fun w => match heap w !! r with
           | Some b => Ok tt (mkWorld (self w) (<[r := f b]> (heap w)))
           | None => Raise w
           end.

Definition add_fixed_cost (r : loc) (cost : F) : Exec (World F C) unit :=
  bill_update (Bill.add_fixed_cost cost) r.

Definition set_rates (r : loc) (label : string) (min_cost : F) : Exec (World F C) unit :=
  bill_update (Bill.set_rates label min_cost) r.

Definition add_billed_minutes (r : loc) (minutes : Z) : Exec (World F C) unit :=
  bill_update (Bill.add_billed_minutes minutes) r.

Definition add_free_minutes (r : loc) (minutes : Z) : Exec (World F C) unit :=
  bill_update (Bill.add_free_minutes minutes) r.

Definition get_cost (r : loc) : Exec (World F C) F :=
  b ← bill_read r; mret (Bill.get_cost b).

Definition get_free_min (r : loc) : Exec (World F C) Z :=
  b ← bill_read r; mret (free_min b).
End WorldOps.

(** ** class Contract *)

Record Contract : Type := mkContract {
  start : option date;
  bill : option loc
}.

(** A class that inherits from [Contract] carries its two attributes. *)
Class Inherits (C : Type) : Type := {
  base : C -> Contract;
  with_base : Contract -> C -> C
}.

#[global] Instance Contract_inherits : Inherits Contract :=
  {| base := fun c => c; with_base := fun b _ => b |}.

Module Base.
Definition init (start : date) : Contract :=
  {| start := Some start; bill := None |}.

Section Methods.
Context `{Arith F} {C : Type} `{Inherits C}.

Definition set_start (d : option date) : Exec (World F C) unit :=
  set_self (fun c => with_base (mkContract d (bill (base c))) c).

Definition set_bill (r : loc) : Exec (World F C) unit :=
  set_self (fun c => with_base (mkContract (start (base c)) (Some r)) c).

Definition get_start : Exec (World F C) (option date) :=
  c ← get_self; mret (start (base c)).

Definition get_bill : Exec (World F C) (option loc) :=
  c ← get_self; mret (bill (base c)).

(** [raise NotImplementedError] *)
Definition new_month (month year : Z) (bill : loc) : Exec (World F C) unit :=
  raise.

Definition bill_call (call : Call) : Exec (World F C) unit :=
  r ← get_bill ≫= deref;
  add_billed_minutes r (ceil_minutes (duration call)).

Definition cancel_contract : Exec (World F C) F :=
  set_start None;;
  r ← get_bill ≫= deref;
  get_cost r.
End Methods.
End Base.

(** ** class MTMContract(Contract) *)

Record MTMContract : Type := mkMTM { mtm_base : Contract }.

#[global] Instance MTM_inherits : Inherits MTMContract :=
  {| base := mtm_base; with_base := fun b _ => mkMTM b |}.

Module MTM.
Definition init (start : date) : MTMContract := mkMTM (Base.init start).

Section Methods.
Context `{Arith F}.

Definition new_month (month year : Z) (bill : loc) : Exec (World F MTMContract) unit :=
  Base.set_bill bill;;
  add_fixed_cost bill MTM_MONTHLY_FEE;;
  set_rates bill "MTM" MTM_MINS_COST.

Definition bill_call : Call -> Exec (World F MTMContract) unit := Base.bill_call.

Definition cancel_contract : Exec (World F MTMContract) F := Base.cancel_contract.
End Methods.
End MTM.

(** ** class TermContract(Contract) *)

Record TermContract : Type := mkTerm {
  term_base : Contract;
  end_ : option date;
  commit : bool
}.

#[global] Instance Term_inherits : Inherits TermContract :=
  {| base := term_base;
     with_base := fun b c => mkTerm b (end_ c) (commit c) |}.

Module Term.
Definition init (start end_ : date) : TermContract :=
  {| term_base := Base.init start; end_ := Some end_; commit := false |}.

Section Methods.
Context `{Arith F}.

Definition set_end (d : option date) : Exec (World F TermContract) unit :=
  set_self (fun c => mkTerm (term_base c) d (commit c)).

Definition set_commit (v : bool) : Exec (World F TermContract) unit :=
  set_self (fun c => mkTerm (term_base c) (end_ c) v).

Definition get_end : Exec (World F TermContract) (option date) :=
  c ← get_self; mret (end_ c).

Definition get_commit : Exec (World F TermContract) bool :=
  c ← get_self; mret (commit c).

Definition new_month (month_ year_ : Z) (bill : loc) : Exec (World F TermContract) unit :=
  s ← Base.get_start ≫= deref;
  (if (month s =? month_) && (year s =? year_)
   then add_fixed_cost bill TERM_DEPOSIT
   else mret tt);;
  e ← get_end ≫= deref;
  (if (month_ =? month e) && (year_ =? year e)
   then set_commit true
   else mret tt);;
  Base.set_bill bill;;
  set_rates bill "TERM" TERM_MINS_COST;;
  add_fixed_cost bill TERM_MONTHLY_FEE.

Definition cancel_contract : Exec (World F TermContract) F :=
  r ← Base.get_bill ≫= deref;
  cost ← get_cost r;
  c ← get_commit;
  let cost := if c : bool then fsub cost TERM_DEPOSIT else cost in
  Base.set_start None;;
  set_end None;;
  mret cost.

Definition bill_call (call : Call) : Exec (World F TermContract) unit :=
  r ← Base.get_bill ≫= deref;
  used ← get_free_min r;
  let free := TERM_MINS - used in
  let call_duration := ceil_minutes (duration call) in
  if 0 <? free
  then
    let used_free := Z.min call_duration free in
    add_free_minutes r used_free;;
    add_billed_minutes r (call_duration - used_free)
  else
    add_billed_minutes r call_duration.
End Methods.
End Term.

(** ** class PrepaidContract(Contract) *)

Record PrepaidContract (F : Type) : Type := mkPrepaid {
  prepaid_base : Contract;
  balance : F
}.
Arguments mkPrepaid {F} prepaid_base balance.
Arguments prepaid_base {F} p.
Arguments balance {F} p.

#[global] Instance Prepaid_inherits {F : Type} : Inherits (PrepaidContract F) :=
  {| base := prepaid_base;
     with_base := fun b c => mkPrepaid b (balance c) |}.

Module Prepaid.
Section Methods.
Context `{Arith F}.

Definition init (start : date) (balance : F) : PrepaidContract F :=
  {| prepaid_base := Base.init start; balance := fmul (lit (-1)) balance |}.

Definition set_balance (v : F) : Exec (World F (PrepaidContract F)) unit :=
  set_self (fun c => mkPrepaid (prepaid_base c) v).

Definition get_balance : Exec (World F (PrepaidContract F)) F :=
  c ← get_self; mret (balance c).

Definition new_month (month year : Z) (bill : loc) :
    Exec (World F (PrepaidContract F)) unit :=
  old ← Base.get_bill;
  match old with
  | Some r => get_cost r ≫= set_balance
  | None => mret tt
  end;;
  bal ← get_balance;
  (if decide (flt (lit (-10)) bal)
   then set_balance (fsub bal (lit 25))
   else mret tt);;
  Base.set_bill bill;;
  bal ← get_balance;
  add_fixed_cost bill bal;;
  set_rates bill "PREPAID" PREPAID_MINS_COST.

Definition bill_call : Call -> Exec (World F (PrepaidContract F)) unit :=
  Base.bill_call.

Definition cancel_contract : Exec (World F (PrepaidContract F)) F :=
  Base.set_start None;;
  r ← Base.get_bill ≫= deref;
  cost ← get_cost r;
  r' ← Base.get_bill ≫= deref;
  cost' ← get_cost r';
  let cost := if decide (flt cost' (lit 0)) then lit 0 else cost in
  set_balance (lit 0);;
  mret cost.
End Methods.
End Prepaid.

(** ** The interface the driver uses *)

Class ContractClass (F C : Type) : Type := {
  new_month : Z -> Z -> loc -> Exec (World F C) unit;
  bill_call : Call -> Exec (World F C) unit;
  cancel_contract : Exec (World F C) F
}.

#[global] Instance Contract_class `{Arith F} : ContractClass F Contract :=
  {| new_month := Base.new_month;
     bill_call := Base.bill_call;
     cancel_contract := Base.cancel_contract |}.

#[global] Instance MTM_class `{Arith F} : ContractClass F MTMContract :=
  {| new_month := MTM.new_month;
     bill_call := MTM.bill_call;
     cancel_contract := MTM.cancel_contract |}.

#[global] Instance Term_class `{Arith F} : ContractClass F TermContract :=
  {| new_month := Term.new_month;
     bill_call := Term.bill_call;
     cancel_contract := Term.cancel_contract |}.

#[global] Instance Prepaid_class `{Arith F} : ContractClass F (PrepaidContract F) :=
  {| new_month := Prepaid.new_month;
     bill_call := Prepaid.bill_call;
     cancel_contract := Prepaid.cancel_contract |}.

(** [Bill()]: a new bill object, at a reference the store does not use. *)
Definition new_Bill `{Arith F} {C : Type} : Exec (World F C) loc :=
  fun w =>
    let r := fresh (dom (heap w)) in
    Ok r (mkWorld (self w) (<[r := Bill.new]> (heap w))).

(** Any use of the three operations, with any bill, in any order. *)
Inductive op : Type :=
  | NewMonth (month year : Z) (bill : loc)
  | BillCall (call : Call)
  | Cancel.

Section Driver.
Context `{Arith F} {C : Type} `{ContractClass F C}.

(** The calls of one month, billed in order. *)
Fixpoint bill_calls (calls : list Call) : Exec (World F C) unit :=
  match calls with
  | [] => mret tt
  | call :: rest => bill_call call;; bill_calls rest
  end.

(** The start of a month: the driver makes a bill and hands it over. *)
Definition cycle (month year : Z) : Exec (World F C) unit :=
  r ← new_Bill; new_month month year r.

(** What a driver that respects the preconditions can reach from a
    contract [c0] it has just made: months are started with a new bill,
    calls last a non-negative number of seconds, and nothing raised. *)
Inductive reachable (c0 : C) : World F C -> Prop :=
  | reach_init :
      reachable c0 (mkWorld c0 ∅)
  | reach_cycle w month year w' :
      reachable c0 w ->
      cycle month year w = Ok tt w' ->
      reachable c0 w'
  | reach_call w call w' :
      reachable c0 w ->
      0 <= duration call ->
      bill_call call w = Ok tt w' ->
      reachable c0 w'.

(** An operation that raises leaves the world as it was when it raised
    and the sequence goes on. *)
Definition exec_op (o : op) (w : World F C) : World F C :=
  match o with
  | NewMonth month year bill => final (new_month month year bill w)
  | BillCall call => final (bill_call call w)
  | Cancel => final (cancel_contract w)
  end.

Definition exec_ops (ops : list op) (w : World F C) : World F C :=
  fold_left (fun w o => exec_op o w) ops w.
End Driver.

(** Total of the whole minutes of a list of calls. *)
Definition total_minutes (calls : list Call) : Z :=
  foldr (fun call acc => ceil_minutes (duration call) + acc) 0 calls.

(** * Properties *)

(** ** Whole minutes *)

Lemma ceil_minutes_le (d n : Z) : ceil_minutes d <= n <-> d <= 60 * n.
Proof.
  unfold ceil_minutes. split; intros Hle.
  - assert (Hd : - n <= - d / 60) by lia.
    pose proof (Z.mul_div_le (- d) 60 ltac:(lia)) as Hm.
    nia.
  - assert (Hd : - n <= - d / 60) by (apply Z.div_le_lower_bound; lia).
    lia.
Qed.

Lemma ceil_minutes_bounds (d : Z) :
  60 * (ceil_minutes d - 1) < d <= 60 * ceil_minutes d.
Proof.
  split.
  - destruct (Z_lt_le_dec (60 * (ceil_minutes d - 1)) d) as [Hlt | Hge]; [done |].
    apply ceil_minutes_le in Hge. lia.
  - apply ceil_minutes_le. lia.
Qed.

Lemma ceil_minutes_nonneg (d : Z) : 0 <= d -> 0 <= ceil_minutes d.
Proof. intros Hd. pose proof (ceil_minutes_bounds d). lia. Qed.

Lemma total_minutes_nonneg (calls : list Call) :
  Forall (fun call => 0 <= duration call) calls -> 0 <= total_minutes calls.
Proof.
  induction 1 as [| call rest Hd _ IH]; simpl; [lia |].
  pose proof (ceil_minutes_nonneg _ Hd). lia.
Qed.

(** ** Steps of the computations *)

Ltac exec_step :=
  unfold mbind, mret, Exec_bind, Exec_ret, exec_bind, exec_ret,
    Base.get_bill, Base.get_start, Base.set_bill, Base.set_start,
    Term.get_end, Term.get_commit, Term.set_end, Term.set_commit,
    Prepaid.get_balance, Prepaid.set_balance,
    get_cost, get_free_min, bill_read,
    add_fixed_cost, set_rates, add_billed_minutes, add_free_minutes,
    set_self, get_self, modify, deref, raise, final in *;
  simpl in *.

Ltac exec_simpl := repeat progress exec_step.

(** Run a computation as far as the known attribute and store lookups
    determine it. *)
Ltac exec_run :=
  exec_simpl;
  repeat (match goal with
          | Heq : ?x = Some _ |- context [?x] => rewrite Heq
          | Heq : ?x = None |- context [?x] => rewrite Heq
          end; exec_simpl).

Lemma bill_update_Ok `{Arith F} {C : Type} (f : Bill F -> Bill F) (r : loc)
    (c : C) (h : gmap loc (Bill F)) (b : Bill F) :
  h !! r = Some b ->
  bill_update f r (mkWorld c h) = Ok tt (mkWorld c (<[r := f b]> h)).
Proof. intros Hb. unfold bill_update. simpl. by rewrite Hb. Qed.

(** ** Term contract: closing the line *)

(** C3, as stated, fails on the program: the deposit is subtracted in
    binary64 and the difference is rounded.  A term contract from
    January to February 2020 with 101 minutes of calls in February has
    [commit] set and a bill that costs the float 20.1; closing the line
    returns a float that is not that cost minus 300. *)
Lemma term_cancel_contract_rounds :
  let w : World float TermContract :=
    final ((cycle 1 2020;; cycle 2 2020;; bill_call (mkCall 6060))
             (mkWorld (Term.init (mkDate 2020 1 15) (mkDate 2020 2 15)) ∅)) in
  exists (b : Bill float) (amount : float) (w' : World float TermContract)
         (x y : Q),
    commit (self w) = true /\
    bill (term_base (self w)) = Some 2%positive /\
    heap w !! 2%positive = Some b /\
    cancel_contract w = Ok amount w' /\
    Binary64.value (Bill.get_cost b) = Some y /\
    Binary64.value amount = Some x /\
    ~ (x == y - 300)%Q.
Proof.
  intros w. eexists _, _, _, _, _.
  split; [by vm_compute |]. split; [by vm_compute |].
  split; [vm_compute; reflexivity |].
  split; [vm_compute; reflexivity |].
  split; [vm_compute; reflexivity |].
  split; [vm_compute; reflexivity |].
  vm_compute. discriminate.
Qed.

(** C3, amended. With a bill set, closing a term contract returns the
    cost of the bill less the deposit, subtracted in the arithmetic of
    the program (for floats the difference rounded to binary64), when
    [commit] holds, and the cost of the bill itself when it does not;
    either way [start] and [end] are cleared and nothing else changes. *)
Theorem term_cancel_contract_amount `{Arith F}
    (c : TermContract) (h : gmap loc (Bill F)) (r : loc) (b : Bill F) :
  bill (term_base c) = Some r ->
  h !! r = Some b ->
  Term.cancel_contract (mkWorld c h) =
    Ok (if commit c then fsub (Bill.get_cost b) (lit 300) else Bill.get_cost b)
       (mkWorld {| term_base := {| start := None; bill := Some r |};
                   end_ := None;
                   commit := commit c |} h).
Proof.
  intros Hr Hb. unfold Term.cancel_contract. exec_simpl.
  exec_run. reflexivity.
Qed.

(** A bill of 320.1 with the commitment met: the float returned is
    20.100000000000023, the binary64 difference. *)
Lemma term_cancel_contract_amount_witness :
  let c := {| term_base := {| start := Some (mkDate 2020 1 15); bill := Some 1%positive |};
              end_ := Some (mkDate 2020 1 30); commit := true |} in
  let b : Bill float :=
    {| billed_min := 1; free_min := 100; min_rate := TERM_MINS_COST;
       fixed_cost := lit 320; rate_label := "TERM" |} in
  Term.cancel_contract (mkWorld c {[ 1%positive := b ]}) =
    Ok (fsub (Bill.get_cost b) (lit 300))
       (mkWorld {| term_base := {| start := None; bill := Some 1%positive |};
                   end_ := None; commit := true |} {[ 1%positive := b ]}) /\
  fsub (Bill.get_cost b) (lit 300) <> lit 20.1.
Proof.
  intros c b. split.
  - apply (term_cancel_contract_amount c {[ 1%positive := b ]} 1%positive b);
      reflexivity.
  - intros Heq.
    pose proof (f_equal (PrimFloat.eqb (lit 20.1)) Heq) as Hb.
    vm_compute in Hb. discriminate.
Defined.

(** ** Prepaid contract: closing the line *)

(** C4. With a bill set, closing a prepaid contract returns 0 when the
    cost of the bill is negative and that cost otherwise; afterwards
    [balance] is 0 and [start] is cleared, and nothing else changes. *)
Theorem prepaid_cancel_contract_clamp `{Arith F}
    (c : PrepaidContract F) (h : gmap loc (Bill F)) (r : loc) (b : Bill F) :
  bill (prepaid_base c) = Some r ->
  h !! r = Some b ->
  exists (amount : F) (c' : PrepaidContract F),
    Prepaid.cancel_contract (mkWorld c h) = Ok amount (mkWorld c' h) /\
    (flt (Bill.get_cost b) (lit 0) -> amount = lit 0) /\
    (~ flt (Bill.get_cost b) (lit 0) -> amount = Bill.get_cost b) /\
    balance c' = lit 0 /\
    start (prepaid_base c') = None /\
    bill (prepaid_base c') = Some r.
Proof.
  intros Hr Hb. unfold Prepaid.cancel_contract. exec_run.
  destruct (decide (flt (Bill.get_cost b) (lit 0))) as [Hneg | Hpos];
    eexists _, _; (split; [reflexivity |]); simpl;
    repeat split; try done; intros Hc; contradiction.
Qed.

Lemma prepaid_cancel_contract_clamp_witness :
  let c := {| prepaid_base := {| start := Some (mkDate 2020 1 15); bill := Some 1%positive |};
              balance := lit (-40) |} in
  let b : Bill float :=
    Bill.set_rates "PREPAID" PREPAID_MINS_COST (Bill.add_fixed_cost (lit (-40)) Bill.new) in
  exists (amount : float) (c' : PrepaidContract float),
    Prepaid.cancel_contract (mkWorld c {[ 1%positive := b ]}) =
      Ok amount (mkWorld c' {[ 1%positive := b ]}) /\
    (flt (Bill.get_cost b) (lit 0) -> amount = lit 0) /\
    (~ flt (Bill.get_cost b) (lit 0) -> amount = Bill.get_cost b) /\
    balance c' = lit 0 /\
    start (prepaid_base c') = None /\
    bill (prepaid_base c') = Some 1%positive.
Proof.
  intros c b.
  apply (prepaid_cancel_contract_clamp c {[ 1%positive := b ]} 1%positive b);
    reflexivity.
Defined.

(** ** Term contract: the pool of free minutes *)

(** One call on a term contract, as [bill_call] computes it. *)
Lemma term_bill_call_Ok `{Arith F}
    (c : TermContract) (h : gmap loc (Bill F)) (r : loc) (b : Bill F) (call : Call) :
  bill (term_base c) = Some r ->
  h !! r = Some b ->
  let call_duration := ceil_minutes (duration call) in
  let free := TERM_MINS - free_min b in
  Term.bill_call call (mkWorld c h) =
    Ok tt (mkWorld c
      (<[r := if 0 <? free
              then Bill.add_billed_minutes (call_duration - Z.min call_duration free)
                     (Bill.add_free_minutes (Z.min call_duration free) b)
              else Bill.add_billed_minutes call_duration b]> h)).
Proof.
  intros Hr Hb call_duration free.
  unfold Term.bill_call. exec_run.
  fold call_duration free. destruct (0 <? free).
  - exec_run. rewrite (bill_update_Ok _ _ _ _ b Hb). exec_run.
    erewrite bill_update_Ok by apply lookup_insert_eq.
    simpl. by rewrite insert_insert_eq.
  - exec_run. by rewrite (bill_update_Ok _ _ _ _ b Hb).
Qed.

(** The calls of a month on a term contract: the free minutes recorded
    grow up to the pool of 100 and stop there, and only what does not fit
    in the pool is billed. *)
Lemma term_bill_calls_pool `{Arith F} (calls : list Call) :
  forall (c : TermContract) (h : gmap loc (Bill F)) (r : loc) (b : Bill F),
    bill (term_base c) = Some r ->
    h !! r = Some b ->
    Forall (fun call => 0 <= duration call) calls ->
    exists (h' : gmap loc (Bill F)) (b' : Bill F),
      bill_calls calls (mkWorld c h) = Ok tt (mkWorld c h') /\
      h' !! r = Some b' /\
      free_min b' = Z.max (free_min b) (Z.min 100 (free_min b + total_minutes calls)) /\
      billed_min b' + free_min b' = billed_min b + free_min b + total_minutes calls /\
      min_rate b' = min_rate b /\ fixed_cost b' = fixed_cost b.
Proof.
  induction calls as [| call rest IH]; intros c h r b Hr Hb Hd.
  - exists h, b. simpl. repeat split; try done; lia.
  - inversion Hd as [| ? ? Hcall Hrest]; subst.
    pose proof (ceil_minutes_nonneg _ Hcall) as Hmin.
    pose proof (term_bill_call_Ok c h r b call Hr Hb) as Hstep.
    simpl in Hstep. unfold TERM_MINS in Hstep.
    set (b1 := if 0 <? 100 - free_min b then _ else _) in Hstep.
    destruct (IH c (<[r := b1]> h) r b1 Hr (lookup_insert_eq h r b1) Hrest)
      as (h' & b' & Hrun & Hb' & Hfree & Hsum & Hrate & Hfixed).
    exists h', b'. split.
    { simpl. exec_simpl.
      change (@bill_call _ _ Term_class call) with (Term.bill_call call).
      by rewrite Hstep. }
    split; [exact Hb' |].
    rewrite Hrate, Hfixed. clear Hrate Hfixed Hrun Hstep.
    pose proof (total_minutes_nonneg _ Hrest) as Htotal.
    simpl. subst b1.
    destruct (0 <? 100 - free_min b) eqn:Hpool; simpl in *;
      [apply Z.ltb_lt in Hpool | apply Z.ltb_ge in Hpool];
      repeat split; try done; lia.
Qed.

(** C1. A call on a term contract whose bill records [f] free minutes
    (any [f], so also every [0 <= f]) is rounded up to whole minutes; with [100 - f > 0] the
    smaller of the call and of what is left of the pool is recorded as
    free and the rest of the call is billed, with [100 - f <= 0] the
    whole call is billed.  So over the calls of a month the pool of 100
    free minutes is used up first, in the order of the calls: the free
    minutes stop at 100 and only what exceeds the pool is billed. *)
Theorem term_bill_call_free_pool `{Arith F}
    (c : TermContract) (h : gmap loc (Bill F)) (r : loc) (b : Bill F) :
  bill (term_base c) = Some r ->
  h !! r = Some b ->
  (forall call : Call,
     let call_minutes := ceil_minutes (duration call) in
     let remaining_free := 100 - free_min b in
     (0 < remaining_free ->
      Term.bill_call call (mkWorld c h) =
        Ok tt (mkWorld c
          (<[r := {| billed_min :=
                       billed_min b + (call_minutes - Z.min call_minutes remaining_free);
                     free_min := free_min b + Z.min call_minutes remaining_free;
                     min_rate := min_rate b;
                     fixed_cost := fixed_cost b;
                     rate_label := rate_label b |}]> h))) /\
     (remaining_free <= 0 ->
      Term.bill_call call (mkWorld c h) =
        Ok tt (mkWorld c
          (<[r := {| billed_min := billed_min b + call_minutes;
                     free_min := free_min b;
                     min_rate := min_rate b;
                     fixed_cost := fixed_cost b;
                     rate_label := rate_label b |}]> h)))) /\
  (forall calls : list Call,
     Forall (fun call => 0 <= duration call) calls ->
     exists (h' : gmap loc (Bill F)) (b' : Bill F),
       bill_calls calls (mkWorld c h) = Ok tt (mkWorld c h') /\
       h' !! r = Some b' /\
       free_min b' = Z.max (free_min b) (Z.min 100 (free_min b + total_minutes calls)) /\
       billed_min b' =
         billed_min b + (free_min b + total_minutes calls - free_min b')).
Proof.
  intros Hr Hb. split.
  - intros call call_minutes remaining_free.
    pose proof (term_bill_call_Ok c h r b call Hr Hb) as Hrun.
    simpl in Hrun. unfold TERM_MINS in Hrun.
    fold call_minutes remaining_free in Hrun.
    split; intros Hpool; rewrite Hrun.
    + apply Z.ltb_lt in Hpool. by rewrite Hpool.
    + apply Z.ltb_ge in Hpool. by rewrite Hpool.
  - intros calls Hd.
    destruct (term_bill_calls_pool calls c h r b Hr Hb Hd)
      as (h' & b' & Hrun & Hb' & Hfree & Hsum & _).
    exists h', b'. repeat split; try done. lia.
Qed.

(** The two calls of the example of the spec, 3000 and 4000 seconds in
    the first month: 100 free minutes and 17 billed ones. *)
Lemma term_bill_call_free_pool_witness :
  let c := {| term_base := {| start := Some (mkDate 2020 1 15); bill := Some 1%positive |};
              end_ := Some (mkDate 2021 1 15); commit := false |} in
  let b : Bill float := {| billed_min := 0; free_min := 0; min_rate := TERM_MINS_COST;
              fixed_cost := lit 320; rate_label := "TERM" |} in
  exists (h' : gmap loc (Bill float)) (b' : Bill float),
    bill_calls [mkCall 3000; mkCall 4000] (mkWorld c {[ 1%positive := b ]}) =
      Ok tt (mkWorld c h') /\
    h' !! 1%positive = Some b' /\
    free_min b' = 100 /\
    billed_min b' = 17.
Proof.
  intros c b.
  destruct (term_bill_call_free_pool c {[ 1%positive := b ]} 1%positive b)
    as [_ Hcalls]; [reflexivity | reflexivity |].
  destruct (Hcalls [mkCall 3000; mkCall 4000]) as (h' & b' & Hrun & Hb' & Hfree & Hbilled).
  - repeat constructor; simpl; lia.
  - exists h', b'. rewrite Hbilled, Hfree. repeat split; try done.
Defined.

(** The free minutes of a term bill stay within the pool over any calls. *)
Lemma term_bill_calls_free_le `{Arith F} (calls : list Call) :
  forall (c : TermContract) (h : gmap loc (Bill F)) (r : loc) (b : Bill F),
    bill (term_base c) = Some r ->
    h !! r = Some b ->
    free_min b <= 100 ->
    exists (h' : gmap loc (Bill F)) (b' : Bill F),
      bill_calls calls (mkWorld c h) = Ok tt (mkWorld c h') /\
      h' !! r = Some b' /\
      free_min b' <= 100.
Proof.
  induction calls as [| call rest IH]; intros c h r b Hr Hb Hle.
  - by exists h, b.
  - pose proof (term_bill_call_Ok c h r b call Hr Hb) as Hstep.
    simpl in Hstep. unfold TERM_MINS in Hstep.
    set (b1 := if 0 <? 100 - free_min b then _ else _) in Hstep.
    assert (Hle1 : free_min b1 <= 100).
    { subst b1. destruct (0 <? 100 - free_min b) eqn:Hpool; simpl; lia. }
    destruct (IH c (<[r := b1]> h) r b1 Hr (lookup_insert_eq h r b1) Hle1)
      as (h' & b' & Hrun & Hb' & Hle').
    exists h', b'. split; [| done].
    simpl. exec_simpl.
    change (@bill_call _ _ Term_class call) with (Term.bill_call call).
    by rewrite Hstep.
Qed.

(** C10. On a term contract, a bill whose free minutes are at most 100
    before [bill_call] has at most 100 free minutes after it, whatever
    the call; so they stay at most 100 over any sequence of calls, in
    particular over the calls of a month whose bill starts with none. *)
Theorem term_bill_call_free_min_le_pool `{Arith F}
    (c : TermContract) (h : gmap loc (Bill F)) (r : loc) (b : Bill F) :
  bill (term_base c) = Some r ->
  h !! r = Some b ->
  free_min b <= 100 ->
  (forall call : Call,
     exists (h' : gmap loc (Bill F)) (b' : Bill F),
       Term.bill_call call (mkWorld c h) = Ok tt (mkWorld c h') /\
       h' !! r = Some b' /\
       free_min b' <= 100) /\
  (forall calls : list Call,
     exists (h' : gmap loc (Bill F)) (b' : Bill F),
       bill_calls calls (mkWorld c h) = Ok tt (mkWorld c h') /\
       h' !! r = Some b' /\
       free_min b' <= 100).
Proof.
  intros Hr Hb Hle. split.
  - intros call.
    destruct (term_bill_calls_free_le [call] c h r b Hr Hb Hle)
      as (h' & b' & Hrun & Hb' & Hle').
    exists h', b'. split; [| done].
    simpl in Hrun. exec_simpl.
    change (@bill_call _ _ Term_class call) with (Term.bill_call call) in Hrun.
    destruct (Term.bill_call call (mkWorld c h)) as [[] w | w]; [done | discriminate].
  - intros calls. by apply term_bill_calls_free_le with (b := b).
Qed.

(** A bill with 70 free minutes and a call of 50 minutes: 30 go to the
    pool, which is then full. *)
Lemma term_bill_call_free_min_le_pool_witness :
  let c := {| term_base := {| start := Some (mkDate 2020 1 15); bill := Some 1%positive |};
              end_ := Some (mkDate 2021 1 15); commit := false |} in
  let b : Bill float := {| billed_min := 0; free_min := 70; min_rate := TERM_MINS_COST;
              fixed_cost := lit 20; rate_label := "TERM" |} in
  exists (h' : gmap loc (Bill float)) (b' : Bill float),
    Term.bill_call (mkCall 3000) (mkWorld c {[ 1%positive := b ]}) =
      Ok tt (mkWorld c h') /\
    h' !! 1%positive = Some b' /\
    free_min b' <= 100.
Proof.
  intros c b.
  destruct (term_bill_call_free_min_le_pool c {[ 1%positive := b ]} 1%positive b)
    as [Hcall _]; [reflexivity | reflexivity | simpl; lia |].
  exact (Hcall (mkCall 3000)).
Defined.

(** ** What [bill_call] leaves alone *)

(** Two bills that differ at most in their counts of minutes. *)
Definition same_charges `{Arith F} (b b' : Bill F) : Prop :=
  min_rate b' = min_rate b /\
  fixed_cost b' = fixed_cost b /\
  rate_label b' = rate_label b.

(** Two worlds with the same contract and the same bills, except that the
    bill of the contract may differ in its counts of minutes. *)
Definition only_minutes_changed `{Arith F} {C : Type} `{Inherits C} (w w' : World F C) : Prop :=
  self w' = self w /\
  forall r : loc,
    heap w' !! r = heap w !! r \/
    (bill (base (self w)) = Some r /\
     exists b b' : Bill F,
       heap w !! r = Some b /\ heap w' !! r = Some b' /\ same_charges b b').

Lemma bill_update_minutes `{Arith F} {C : Type} `{Inherits C}
    (f : Bill F -> Bill F) (r : loc) (w : World F C) :
  (forall b, same_charges b (f b)) ->
  bill (base (self w)) = Some r ->
  only_minutes_changed w (final (bill_update f r w)).
Proof.
  intros Hf Hr. unfold bill_update, final, only_minutes_changed.
  destruct (heap w !! r) as [b |] eqn:Hb; simpl.
  - split; [done |]. intros r'.
    destruct (decide (r' = r)) as [-> | Hne].
    + right. split; [done |]. exists b, (f b).
      by rewrite lookup_insert_eq.
    + left. by rewrite lookup_insert_ne.
  - split; [done |]. by left.
Qed.

Lemma base_bill_call_frame `{Arith F} {C : Type} `{Inherits C} (call : Call) (w : World F C) :
  only_minutes_changed w (final (Base.bill_call call w)).
Proof.
  unfold Base.bill_call. exec_simpl.
  destruct (bill (base (self w))) as [r |] eqn:Hr; simpl.
  - apply (bill_update_minutes _ r w); [| done].
    by intros b.
  - split; [done |]. by left.
Qed.

Lemma term_bill_call_frame `{Arith F} (call : Call) (w : World F TermContract) :
  only_minutes_changed w (final (Term.bill_call call w)).
Proof.
  destruct w as [c h].
  destruct (bill (term_base c)) as [r |] eqn:Hr.
  - destruct (h !! r) as [b |] eqn:Hb.
    + rewrite (term_bill_call_Ok c h r b call Hr Hb).
      unfold only_minutes_changed. simpl.
      split; [done |]. intros r'.
      destruct (decide (r' = r)) as [-> | Hne].
      * right. split; [done |]. eexists b, _.
        rewrite lookup_insert_eq. repeat split; try done;
          by destruct (0 <? TERM_MINS - free_min b).
      * left. by rewrite lookup_insert_ne.
    + unfold Term.bill_call. exec_run. split; [done |]. by left.
  - unfold Term.bill_call. exec_run. split; [done |]. by left.
Qed.

(** C9. For the three kinds of contract and every call, [bill_call]
    leaves the contract as it was ([start], the reference to the bill
    and, where there are any, [end], [commit] and [balance]) and every
    bill of the store as it was, except for the counts of minutes of the
    bill of the contract; this holds whether the call returns or raises. *)
Theorem bill_call_changes_minutes_only `{Arith F} (call : Call) :
  (forall w : World F MTMContract,
     only_minutes_changed w (final (bill_call call w))) /\
  (forall w : World F TermContract,
     only_minutes_changed w (final (bill_call call w))) /\
  (forall w : World F (PrepaidContract F),
     only_minutes_changed w (final (bill_call call w))).
Proof.
  split; [| split]; intros w.
  - apply base_bill_call_frame.
  - apply term_bill_call_frame.
  - apply base_bill_call_frame.
Qed.

(** ** Contracts that bill calls as the base class does *)

Section BaseBilling.
Context `{HA : Arith F} {C : Type} {HI : Inherits C} {HC : ContractClass F C}.
Hypothesis bill_call_inherited :
  forall call : Call, bill_call call = Base.bill_call call.

Lemma base_bill_call_Ok
    (c : C) (h : gmap loc (Bill F)) (r : loc) (b : Bill F) (call : Call) :
  bill (base c) = Some r ->
  h !! r = Some b ->
  bill_call call (mkWorld c h) =
    Ok tt (mkWorld c
      (<[r := Bill.add_billed_minutes (ceil_minutes (duration call)) b]> h)).
Proof.
  intros Hr Hb. rewrite bill_call_inherited.
  unfold Base.bill_call. exec_run.
  by rewrite (bill_update_Ok _ _ _ _ b Hb).
Qed.

Lemma base_bill_calls_total (calls : list Call) :
  forall (c : C) (h : gmap loc (Bill F)) (r : loc) (b : Bill F),
    bill (base c) = Some r ->
    h !! r = Some b ->
    exists (h' : gmap loc (Bill F)) (b' : Bill F),
      bill_calls calls (mkWorld c h) = Ok tt (mkWorld c h') /\
      h' !! r = Some b' /\
      billed_min b' = billed_min b + total_minutes calls /\
      free_min b' = free_min b /\
      same_charges b b'.
Proof.
  induction calls as [| call rest IH]; intros c h r b Hr Hb.
  - exists h, b. simpl. repeat split; try done; lia.
  - pose proof (base_bill_call_Ok c h r b call Hr Hb) as Hstep.
    set (b1 := Bill.add_billed_minutes _ b) in Hstep.
    destruct (IH c (<[r := b1]> h) r b1 Hr (lookup_insert_eq h r b1))
      as (h' & b' & Hrun & Hb' & Hbilled & Hfree & Hrate & Hfixed & Hlabel).
    exists h', b'. split.
    { simpl. exec_simpl. by rewrite Hstep. }
    subst b1. simpl in *. repeat split; try done; lia.
Qed.
End BaseBilling.

(** ** Month-to-month contract *)

Lemma mtm_new_month_Ok `{Arith F}
    (c : MTMContract) (h : gmap loc (Bill F)) (month year : Z) (r : loc) (nb : Bill F) :
  h !! r = Some nb ->
  MTM.new_month month year r (mkWorld c h) =
    Ok tt (mkWorld (mkMTM {| start := start (mtm_base c); bill := Some r |})
      (<[r := Bill.set_rates "MTM" MTM_MINS_COST
                (Bill.add_fixed_cost MTM_MONTHLY_FEE nb)]> h)).
Proof.
  intros Hb. unfold MTM.new_month. exec_run.
  rewrite (bill_update_Ok _ _ _ _ nb Hb). exec_run.
  erewrite bill_update_Ok by apply lookup_insert_eq.
  by rewrite insert_insert_eq.
Qed.

(** The bill of a month-to-month contract after a month started with a
    new bill and any calls. *)
Lemma mtm_month_bill `{Arith F}
    (c : MTMContract) (h : gmap loc (Bill F)) (month year : Z) (r : loc)
    (calls : list Call) :
  h !! r = Some Bill.new ->
  exists (w' : World F MTMContract) (b' : Bill F),
    (new_month month year r;; bill_calls calls) (mkWorld c h) = Ok tt w' /\
    bill (mtm_base (self w')) = Some r /\
    heap w' !! r = Some b' /\
    billed_min b' = total_minutes calls /\
    min_rate b' = lit 0.05 /\
    fixed_cost b' = fadd (lit 0) (lit 50).
Proof.
  intros Hb.
  pose proof (mtm_new_month_Ok c h month year r Bill.new Hb) as Hmonth.
  set (c1 := mkMTM _) in Hmonth. set (b1 := Bill.set_rates _ _ _) in Hmonth.
  destruct (base_bill_calls_total (HI := MTM_inherits) (HC := MTM_class)
              (fun _ => eq_refl) calls c1 (<[r := b1]> h) r b1 eq_refl
              (lookup_insert_eq h r b1))
    as (h' & b' & Hrun & Hb' & Hbilled & _ & Hrate & Hfixed & _).
  exists (mkWorld c1 h'), b'. split.
  { exec_simpl. change (@new_month _ _ MTM_class) with (MTM.new_month (F := F)).
    by rewrite Hmonth. }
  simpl in *. rewrite Z.add_0_l in Hbilled. by repeat split.
Qed.

(** C5, as stated, fails on the program: the cost is computed in
    binary64.  A month with one call of 38460 seconds bills 641 minutes
    and costs the float 82.05000000000001, which is neither the number
    [50 + 0.05 * 641] nor the float nearest to it. *)
Lemma mtm_month_total_cost_rounds :
  exists (w' : World float MTMContract) (b' : Bill float) (x : Q),
    (new_month 1 2020 1%positive;; bill_calls [mkCall 38460])
      (mkWorld (MTM.init (mkDate 2020 1 15)) {[ 1%positive := Bill.new ]}) =
      Ok tt w' /\
    heap w' !! 1%positive = Some b' /\
    billed_min b' = 641 /\
    Binary64.value (Bill.get_cost b') = Some x /\
    ~ (x == 50 + 0.05 * inject_Z 641)%Q /\
    Bill.get_cost b' <> lit 82.05.
Proof.
  eexists _, _, _.
  split; [vm_compute; reflexivity |].
  split; [vm_compute; reflexivity |].
  split; [reflexivity |].
  split; [vm_compute; reflexivity |].
  split; [vm_compute; discriminate |].
  intros Heq.
  pose proof (f_equal (PrimFloat.eqb (lit 82.05)) Heq) as Hb.
  vm_compute in Hb. discriminate.
Qed.

(** C5, amended. On a month-to-month contract, a month started with a
    new bill and followed by calls of [d1 .. dn] seconds bills
    [t = ceil (d1 / 60) + .. + ceil (dn / 60)] minutes and costs the
    float [50.0 + float(t) * 0.05], each operation rounded to binary64;
    this holds for any durations, so also for the non-negative ones. *)
Theorem mtm_month_total_cost
    (c : MTMContract) (h : gmap loc (Bill float)) (month year : Z) (r : loc)
    (calls : list Call) :
  h !! r = Some Bill.new ->
  exists (w' : World float MTMContract) (b' : Bill float),
    (new_month month year r;; bill_calls calls) (mkWorld c h) = Ok tt w' /\
    bill (mtm_base (self w')) = Some r /\
    heap w' !! r = Some b' /\
    billed_min b' = total_minutes calls /\
    Bill.get_cost b' =
      fadd (lit 50) (fmul (of_int (total_minutes calls)) (lit 0.05)).
Proof.
  intros Hb.
  destruct (mtm_month_bill c h month year r calls Hb)
    as (w' & b' & Hrun & Hr & Hb' & Hbilled & Hrate & Hfixed).
  exists w', b'. repeat split; try done.
  unfold Bill.get_cost. by rewrite Hbilled, Hrate, Hfixed.
Qed.

(** The example of the spec: one call of 125 seconds is 3 minutes and
    the month costs 50.15. *)
Lemma mtm_month_total_cost_witness :
  exists (w' : World float MTMContract) (b' : Bill float),
    (new_month 1 2020 1%positive;; bill_calls [mkCall 125])
      (mkWorld (MTM.init (mkDate 2020 1 15)) {[ 1%positive := Bill.new ]}) = Ok tt w' /\
    heap w' !! 1%positive = Some b' /\
    billed_min b' = 3 /\
    Bill.get_cost b' = lit 50.15.
Proof.
  destruct (mtm_month_total_cost (MTM.init (mkDate 2020 1 15))
              {[ 1%positive := Bill.new ]} 1 2020 1%positive [mkCall 125])
    as (w' & b' & Hrun & _ & Hb' & Hbilled & Hcost); [reflexivity |].
  exists w', b'. repeat split; done.
Defined.

(** ** Term contract: the start of a month *)

Lemma term_new_month_Ok `{Arith F}
    (c : TermContract) (h : gmap loc (Bill F)) (month_ year_ : Z) (r : loc)
    (nb : Bill F) (s e : date) :
  start (term_base c) = Some s ->
  end_ c = Some e ->
  h !! r = Some nb ->
  Term.new_month month_ year_ r (mkWorld c h) =
    Ok tt (mkWorld
      {| term_base := {| start := Some s; bill := Some r |};
         end_ := Some e;
         commit := if (month_ =? month e) && (year_ =? year e)
                   then true else commit c |}
      (<[r := Bill.add_fixed_cost TERM_MONTHLY_FEE
                (Bill.set_rates "TERM" TERM_MINS_COST
                   (if (month s =? month_) && (year s =? year_)
                    then Bill.add_fixed_cost TERM_DEPOSIT nb
                    else nb))]> h)).
Proof.
  intros Hs He Hb. unfold Term.new_month. exec_run.
  destruct ((month s =? month_) && (year s =? year_)); exec_run.
  - rewrite (bill_update_Ok _ _ _ _ nb Hb). exec_run.
    destruct ((month_ =? month e) && (year_ =? year e)); exec_run.
    all: erewrite bill_update_Ok by apply lookup_insert_eq; exec_run.
    all: erewrite bill_update_Ok by apply lookup_insert_eq.
    all: by rewrite !insert_insert_eq, ?Hs, ?He.
  - destruct ((month_ =? month e) && (year_ =? year e)); exec_run.
    all: rewrite (bill_update_Ok _ _ _ _ nb Hb); exec_run.
    all: erewrite bill_update_Ok by apply lookup_insert_eq.
    all: by rewrite !insert_insert_eq, ?Hs, ?He.
Qed.

(** C6. On a term contract that has its dates, the start of a month adds
    the deposit of 300.00 to the fixed cost of the bill exactly when the
    month and the year are those of [start], and always adds the fee of
    20.00, in whatever arithmetic; so the first month, started with a new
    bill and no call, costs 320.00, in binary64 as in exact arithmetic. *)
Theorem term_new_month_charges :
  (forall (F : Type) (HA : Arith F)
          (c : TermContract) (h : gmap loc (Bill F)) (month_ year_ : Z)
          (r : loc) (nb : Bill F) (s e : date),
     start (term_base c) = Some s ->
     end_ c = Some e ->
     h !! r = Some nb ->
     exists (c' : TermContract) (h' : gmap loc (Bill F)) (b' : Bill F),
       Term.new_month month_ year_ r (mkWorld c h) = Ok tt (mkWorld c' h') /\
       bill (term_base c') = Some r /\
       h' !! r = Some b' /\
       billed_min b' = billed_min nb /\
       (month s = month_ /\ year s = year_ ->
        fixed_cost b' = fadd (fadd (fixed_cost nb) (lit 300)) (lit 20)) /\
       (~ (month s = month_ /\ year s = year_) ->
        fixed_cost b' = fadd (fixed_cost nb) (lit 20))) /\
  (forall (c : TermContract) (h : gmap loc (Bill float)) (r : loc) (s e : date),
     start (term_base c) = Some s ->
     end_ c = Some e ->
     h !! r = Some Bill.new ->
     exists (c' : TermContract) (h' : gmap loc (Bill float)) (b' : Bill float),
       Term.new_month (month s) (year s) r (mkWorld c h) = Ok tt (mkWorld c' h') /\
       h' !! r = Some b' /\
       Bill.get_cost b' = lit 320) /\
  (forall (c : TermContract) (h : gmap loc (Bill Q)) (r : loc) (s e : date),
     start (term_base c) = Some s ->
     end_ c = Some e ->
     h !! r = Some Bill.new ->
     exists (c' : TermContract) (h' : gmap loc (Bill Q)) (b' : Bill Q),
       Term.new_month (month s) (year s) r (mkWorld c h) = Ok tt (mkWorld c' h') /\
       h' !! r = Some b' /\
       (Bill.get_cost b' == 320)%Q).
Proof.
  split; [| split].
  - intros F HA c h month_ year_ r nb s e Hs He Hb.
    rewrite (term_new_month_Ok c h month_ year_ r nb s e Hs He Hb).
    eexists _, _, _. split; [reflexivity |]. simpl.
    split; [done |]. split; [apply lookup_insert_eq |].
    destruct ((month s =? month_) && (year s =? year_)) eqn:Hfirst.
    + apply andb_true_iff in Hfirst as [Hm Hy].
      apply Z.eqb_eq in Hm, Hy. simpl.
      repeat split; try done.
      intros Hno. by destruct Hno.
    + apply andb_false_iff in Hfirst. simpl.
      assert (Hno : ~ (month s = month_ /\ year s = year_)).
      { intros [Hm Hy]. destruct Hfirst as [Hf | Hf];
          apply Z.eqb_neq in Hf; contradiction. }
      repeat split; try done; intros Hyes; contradiction.
  - intros c h r s e Hs He Hb.
    rewrite (term_new_month_Ok c h (month s) (year s) r Bill.new s e Hs He Hb).
    eexists _, _, _. split; [reflexivity |].
    split; [apply lookup_insert_eq |].
    rewrite !Z.eqb_refl. reflexivity.
  - intros c h r s e Hs He Hb.
    rewrite (term_new_month_Ok c h (month s) (year s) r Bill.new s e Hs He Hb).
    eexists _, _, _. split; [reflexivity |].
    split; [apply lookup_insert_eq |].
    rewrite !Z.eqb_refl. reflexivity.
Qed.

Lemma term_new_month_charges_witness :
  exists (c' : TermContract) (h' : gmap loc (Bill float)) (b' : Bill float),
    Term.new_month 1 2020 1%positive
      (mkWorld (Term.init (mkDate 2020 1 15) (mkDate 2021 1 15))
               {[ 1%positive := Bill.new ]}) = Ok tt (mkWorld c' h') /\
    h' !! 1%positive = Some b' /\
    Bill.get_cost b' = lit 320.
Proof.
  destruct term_new_month_charges as (_ & Hfloat & _).
  apply (Hfloat (Term.init (mkDate 2020 1 15) (mkDate 2021 1 15))
           {[ 1%positive := Bill.new ]} 1%positive
           (mkDate 2020 1 15) (mkDate 2021 1 15)); reflexivity.
Defined.

(** ** Prepaid contract: the start of a month *)

(** The balance a prepaid contract carries into a month: the cost of the
    bill it holds, or the balance it was made with when it holds none. *)
Definition carried_balance `{Arith F}
    (c : PrepaidContract F) (h : gmap loc (Bill F)) : option F :=
  match bill (prepaid_base c) with
  | Some p => Bill.get_cost <$> h !! p
  | None => Some (balance c)
  end.

Lemma prepaid_new_month_Ok `{Arith F}
    (c : PrepaidContract F) (h : gmap loc (Bill F)) (month year : Z) (r : loc)
    (nb : Bill F) (bal : F) :
  carried_balance c h = Some bal ->
  h !! r = Some nb ->
  let bal' := if decide (flt (lit (-10)) bal) then fsub bal (lit 25) else bal in
  Prepaid.new_month month year r (mkWorld c h) =
    Ok tt (mkWorld
      {| prepaid_base := {| start := start (prepaid_base c); bill := Some r |};
         balance := bal' |}
      (<[r := Bill.set_rates "PREPAID" PREPAID_MINS_COST
                (Bill.add_fixed_cost bal' nb)]> h)).
Proof.
  intros Hbal Hb bal'. subst bal'. unfold carried_balance in Hbal.
  unfold Prepaid.new_month. exec_simpl.
  destruct (bill (prepaid_base c)) as [p |] eqn:Hp.
  - destruct (h !! p) as [pb |] eqn:Hpb; [| discriminate].
    simpl in Hbal. injection Hbal as <-. exec_run.
    destruct (decide (flt (lit (-10)) (Bill.get_cost pb))); exec_run.
    all: rewrite (bill_update_Ok _ _ _ _ nb Hb); exec_run.
    all: erewrite bill_update_Ok by apply lookup_insert_eq.
    all: by rewrite insert_insert_eq.
  - injection Hbal as <-. exec_run.
    destruct (decide (flt (lit (-10)) (balance c))); exec_run.
    all: rewrite (bill_update_Ok _ _ _ _ nb Hb); exec_run.
    all: erewrite bill_update_Ok by apply lookup_insert_eq.
    all: by rewrite insert_insert_eq.
Qed.

(** C2, as stated, fails on the program: the 25.00 are taken off in
    binary64.  A prepaid contract made with a credit of 2.01 carries the
    float -2.01 into its first month, which is above -10; the fixed
    charge registered on a new bill is the float -27.009999999999998,
    which is neither the carried balance minus 25 nor the float nearest
    to -27.01. *)
Lemma prepaid_new_month_recharge_rounds :
  let c : PrepaidContract float := Prepaid.init (mkDate 2020 1 15) (lit 2.01) in
  exists (c' : PrepaidContract float) (h' : gmap loc (Bill float))
         (b' : Bill float) (x y : Q),
    flt (lit (-10)) (balance c) /\
    Prepaid.new_month 1 2020 1%positive (mkWorld c {[ 1%positive := Bill.new ]}) =
      Ok tt (mkWorld c' h') /\
    h' !! 1%positive = Some b' /\
    Binary64.value (balance c) = Some y /\
    Binary64.value (fixed_cost b') = Some x /\
    ~ (x == y - 25)%Q /\
    fixed_cost b' <> lit (-27.01).
Proof.
  intros c. eexists _, _, _, _, _.
  split; [by vm_compute |].
  split; [vm_compute; reflexivity |].
  split; [vm_compute; reflexivity |].
  split; [vm_compute; reflexivity |].
  split; [vm_compute; reflexivity |].
  split; [vm_compute; discriminate |].
  intros Heq.
  pose proof (f_equal (PrimFloat.eqb (lit (-27.01))) Heq) as Hb.
  vm_compute in Hb. discriminate.
Qed.

(** C2, amended. On a prepaid contract the start of a month takes as
    balance the cost of the bill held so far (the balance of the
    constructor when there is none), then takes 25.00 off it exactly when
    it is above -10.00, the difference being computed in the arithmetic
    of the program (for floats, rounded to binary64), and only then adds
    the balance to the fixed cost of the new bill, which for a new bill
    starts at 0. *)
Theorem prepaid_new_month_recharge `{Arith F}
    (c : PrepaidContract F) (h : gmap loc (Bill F)) (month year : Z) (r : loc)
    (nb : Bill F) (bal : F) :
  carried_balance c h = Some bal ->
  h !! r = Some nb ->
  exists (c' : PrepaidContract F) (h' : gmap loc (Bill F)) (b' : Bill F),
    Prepaid.new_month month year r (mkWorld c h) = Ok tt (mkWorld c' h') /\
    bill (prepaid_base c') = Some r /\
    h' !! r = Some b' /\
    fixed_cost b' = fadd (fixed_cost nb) (balance c') /\
    (flt (lit (-10)) bal -> balance c' = fsub bal (lit 25)) /\
    (~ flt (lit (-10)) bal -> balance c' = bal) /\
    (nb = Bill.new ->
     (flt (lit (-10)) bal -> fixed_cost b' = fadd (lit 0) (fsub bal (lit 25))) /\
     (~ flt (lit (-10)) bal -> fixed_cost b' = fadd (lit 0) bal)).
Proof.
  intros Hbal Hb.
  rewrite (prepaid_new_month_Ok c h month year r nb bal Hbal Hb).
  eexists _, _, _. split; [reflexivity |]. simpl.
  split; [done |]. split; [apply lookup_insert_eq |]. simpl.
  split; [done |].
  destruct (decide (flt (lit (-10)) bal)) as [Hlow | Hhigh].
  - repeat split; try done; try (intros Hno; contradiction).
    by intros _; subst nb.
  - repeat split; try done; try (intros Hyes; contradiction).
    by intros _; subst nb.
Qed.

(** A contract whose bill ended the month at -9.98, just above -10: the
    balance carried over is topped up, and the new balance is the float
    -34.980000000000004, registered on the new bill. *)
Lemma prepaid_new_month_recharge_witness :
  let c : PrepaidContract float :=
    {| prepaid_base := {| start := Some (mkDate 2020 1 15); bill := Some 1%positive |};
       balance := lit (-40) |} in
  let b : Bill float :=
    {| billed_min := 0; free_min := 0; min_rate := PREPAID_MINS_COST;
       fixed_cost := lit (-9.98); rate_label := "PREPAID" |} in
  exists (c' : PrepaidContract float) (h' : gmap loc (Bill float)) (b' : Bill float),
    Prepaid.new_month 2 2020 2%positive
      (mkWorld c {[ 1%positive := b; 2%positive := Bill.new ]}) =
      Ok tt (mkWorld c' h') /\
    h' !! 2%positive = Some b' /\
    balance c' = fsub (lit (-9.98)) (lit 25) /\
    fixed_cost b' = balance c' /\
    balance c' <> lit (-34.98).
Proof.
  intros c b.
  destruct (prepaid_new_month_recharge c
              {[ 1%positive := b; 2%positive := Bill.new ]} 2 2020 2%positive
              Bill.new (lit (-9.98)))
    as (c' & h' & b' & Hrun & _ & Hb' & Hfixed & Hlow & _);
    [reflexivity | reflexivity |].
  exists c', h', b'. split; [exact Hrun |]. split; [exact Hb' |].
  rewrite Hfixed, Hlow by (by vm_compute).
  split; [reflexivity |]. split; [reflexivity |].
  intros Heq.
  pose proof (f_equal (PrimFloat.eqb (lit (-34.98))) Heq) as Hcmp.
  vm_compute in Hcmp. discriminate.
Defined.

(** ** Term contract: the commitment *)

(** Split on whatever a computation inspects, until its outcome shows. *)
Ltac exec_cases :=
  repeat (exec_simpl; unfold bill_update in *; simpl in *; case_match);
  exec_simpl.

Lemma term_new_month_keeps_commit `{Arith F}
    (month_ year_ : Z) (r : loc) (w : World F TermContract) :
  commit (self w) = true ->
  commit (self (final (Term.new_month month_ year_ r w))) = true.
Proof.
  intros Hc. destruct w as [c h]. unfold Term.new_month. exec_cases.
  all: simplify_eq; simpl in *; congruence.
Qed.

Lemma term_bill_call_keeps_commit `{Arith F} (call : Call) (w : World F TermContract) :
  commit (self w) = true ->
  commit (self (final (Term.bill_call call w))) = true.
Proof.
  intros Hc. destruct (term_bill_call_frame call w) as [Hself _].
  by rewrite Hself.
Qed.

Lemma term_cancel_contract_keeps_commit `{Arith F} (w : World F TermContract) :
  commit (self w) = true ->
  commit (self (final (Term.cancel_contract w))) = true.
Proof.
  intros Hc. destruct w as [c h]. unfold Term.cancel_contract. exec_cases.
  all: simplify_eq; simpl in *; congruence.
Qed.

Lemma term_exec_ops_keep_commit `{Arith F} (ops : list op) :
  forall w : World F TermContract,
    commit (self w) = true ->
    commit (self (exec_ops ops w)) = true.
Proof.
  induction ops as [| o rest IH]; intros w Hc; [done |].
  unfold exec_ops. simpl. apply IH.
  destruct o as [month_ year_ r | call |]; unfold exec_op.
  - by apply term_new_month_keeps_commit.
  - by apply term_bill_call_keeps_commit.
  - by apply term_cancel_contract_keeps_commit.
Qed.

Lemma term_new_month_commit_origin `{Arith F}
    (month_ year_ : Z) (r : loc) (w : World F TermContract) :
  commit (self (final (Term.new_month month_ year_ r w))) = true ->
  commit (self w) = true \/
  exists e : date, end_ (self w) = Some e /\ month_ = month e /\ year_ = year e.
Proof.
  destruct w as [c h]. unfold Term.new_month. exec_cases.
  all: simplify_eq; simpl in *; try (by left).
  all: intros _; right; eexists; (split; [done |]).
  all: match goal with
       | Hm : _ && _ = true |- _ =>
           apply andb_true_iff in Hm as [Hm1 Hm2];
           apply Z.eqb_eq in Hm1, Hm2
       end; done.
Qed.

Lemma term_cancel_contract_commit `{Arith F} (w : World F TermContract) :
  commit (self (final (Term.cancel_contract w))) = commit (self w).
Proof.
  destruct w as [c h]. unfold Term.cancel_contract. exec_cases.
  all: simplify_eq; simpl in *; congruence.
Qed.

(** C7. The [commit] flag of a term contract is false when the contract
    is made; the start of a month whose month and year are those of [end]
    sets it, and the start of any other month leaves it false; calls and
    closings never change it; so once it is set, no sequence of starts of
    months, calls and closings clears it, whether they return or raise. *)
Theorem term_commit_sticky `{Arith F} :
  (forall s e : date, commit (Term.init s e) = false) /\
  (forall (c : TermContract) (h : gmap loc (Bill F)) (r : loc) (nb : Bill F) (s e : date),
     start (term_base c) = Some s ->
     end_ c = Some e ->
     h !! r = Some nb ->
     exists w' : World F TermContract,
       Term.new_month (month e) (year e) r (mkWorld c h) = Ok tt w' /\
       commit (self w') = true) /\
  (forall (ops : list op) (w : World F TermContract),
     commit (self w) = true ->
     commit (self (exec_ops ops w)) = true) /\
  (forall (c : TermContract) (h : gmap loc (Bill F)) (month_ year_ : Z) (r : loc),
     commit c = false ->
     (forall e : date, end_ c = Some e -> ~ (month_ = month e /\ year_ = year e)) ->
     commit (self (final (Term.new_month month_ year_ r (mkWorld c h)))) = false) /\
  (forall (w : World F TermContract) (call : Call),
     commit (self (final (Term.bill_call call w))) = commit (self w)) /\
  (forall w : World F TermContract,
     commit (self (final (Term.cancel_contract w))) = commit (self w)).
Proof.
  split; [done |]. split; [| split; [| split; [| split]]].
  - intros c h r nb s e Hs He Hb.
    rewrite (term_new_month_Ok c h (month e) (year e) r nb s e Hs He Hb).
    eexists. split; [reflexivity |]. simpl.
    by rewrite !Z.eqb_refl.
  - intros ops w. apply term_exec_ops_keep_commit.
  - intros c h month_ year_ r Hc Hother.
    destruct (commit (self (final (Term.new_month month_ year_ r (mkWorld c h)))))
      eqn:Hafter; [| done].
    destruct (term_new_month_commit_origin month_ year_ r (mkWorld c h) Hafter)
      as [Hbefore | (e & He & Hm & Hy)].
    + simpl in Hbefore. congruence.
    + exfalso. by apply (Hother e He).
  - intros w call. destruct (term_bill_call_frame call w) as [Hself _].
    by rewrite Hself.
  - apply term_cancel_contract_commit.
Qed.

(** A contract from January 2020 to February 2020: January leaves
    [commit] false, February sets it, and a call, a closing, another call
    and a start of a month that raises leave it set. *)
Lemma term_commit_sticky_witness :
  let c := Term.init (mkDate 2020 1 15) (mkDate 2020 2 15) in
  let h : gmap loc (Bill float) := {[ 1%positive := Bill.new; 2%positive := Bill.new ]} in
  commit c = false /\
  commit (self (final (Term.new_month 1 2020 1%positive (mkWorld c h)))) = false /\
  exists w' : World float TermContract,
    Term.new_month 2 2020 1%positive (mkWorld c h) = Ok tt w' /\
    commit (self w') = true /\
    commit (self (exec_ops [BillCall (mkCall 61); Cancel; BillCall (mkCall 5);
                            NewMonth 3 2020 2%positive] w')) = true.
Proof.
  intros c h.
  destruct (term_commit_sticky (F := float)) as (Hinit & Hset & Hkeep & Hother & _).
  split; [apply Hinit |]. split.
  - apply Hother; [reflexivity |].
    intros e [= <-]. simpl. intros [Hm _]. discriminate.
  - destruct (Hset c h 1%positive Bill.new (mkDate 2020 1 15) (mkDate 2020 2 15))
      as (w' & Hrun & Hc); [reflexivity | reflexivity | reflexivity |].
    exists w'. split; [exact Hrun |]. split; [exact Hc |].
    by apply Hkeep.
Defined.

(** ** The bills a driver reaches *)

(** The bill a contract refers to is in the store and satisfies [P]. *)
Definition current_bill `{Arith F} {C : Type} `{Inherits C}
    (P : Bill F -> Prop) (w : World F C) : Prop :=
  forall r : loc,
    bill (base (self w)) = Some r ->
    exists b : Bill F, heap w !! r = Some b /\ P b.

Lemma cycle_unfold `{Arith F} {C : Type} `{ContractClass F C}
    (month year : Z) (w : World F C) :
  cycle month year w =
    new_month month year (fresh (dom (heap w)))
      (mkWorld (self w) (<[fresh (dom (heap w)) := Bill.new]> (heap w))).
Proof. reflexivity. Qed.

Section ReachableBills.
Context `{HA : Arith F}.
Variable P : Bill F -> Prop.
Hypothesis P_add_billed :
  forall (n : Z) (b : Bill F), 0 <= n -> P b -> P (Bill.add_billed_minutes n b).
Hypothesis P_add_free :
  forall (n : Z) (b : Bill F), P b -> P (Bill.add_free_minutes n b).

Lemma mtm_reachable_bill (s : date) (w : World F MTMContract) :
  P (Bill.set_rates "MTM" MTM_MINS_COST
       (Bill.add_fixed_cost MTM_MONTHLY_FEE Bill.new)) ->
  reachable (MTM.init s) w -> current_bill P w.
Proof.
  intros Hnew.
  induction 1 as [| w month year w' _ _ Hrun | w call w' _ IH Hd Hrun].
  - intros r Hr. discriminate.
  - rewrite cycle_unfold in Hrun.
    change (@new_month _ _ MTM_class) with (MTM.new_month (F := F)) in Hrun.
    erewrite mtm_new_month_Ok in Hrun by apply lookup_insert_eq.
    injection Hrun as <-. intros r Hr. simpl in Hr. injection Hr as <-.
    eexists. split; [apply lookup_insert_eq | exact Hnew].
  - destruct w as [c h]. intros r Hr.
    destruct (bill (mtm_base c)) as [r0 |] eqn:Hr0.
    + destruct (IH r0 Hr0) as (b & Hb & HP).
      simpl in Hb.
      rewrite (base_bill_call_Ok (HI := MTM_inherits) (HC := MTM_class)
                 (fun _ => eq_refl) c h r0 b call Hr0 Hb) in Hrun.
      injection Hrun as <-. simpl in Hr. rewrite Hr0 in Hr. injection Hr as <-.
      eexists. split; [apply lookup_insert_eq |].
      apply P_add_billed; [by apply ceil_minutes_nonneg | done].
    + revert Hrun.
      change (@bill_call _ _ MTM_class) with (@Base.bill_call F _ MTM_inherits).
      unfold Base.bill_call. exec_run. discriminate.
Qed.

Lemma term_reachable_bill (s e : date) (w : World F TermContract) :
  (forall deposit : bool,
     P (Bill.add_fixed_cost TERM_MONTHLY_FEE
          (Bill.set_rates "TERM" TERM_MINS_COST
             (if deposit then Bill.add_fixed_cost TERM_DEPOSIT Bill.new
              else Bill.new)))) ->
  reachable (Term.init s e) w ->
  start (term_base (self w)) = Some s /\
  end_ (self w) = Some e /\
  current_bill P w.
Proof.
  intros Hnew.
  induction 1 as [| w month_ year_ w' _ IH Hrun | w call w' _ IH Hd Hrun].
  - repeat split; try done.
  - destruct IH as (Hs & He & _).
    rewrite cycle_unfold in Hrun.
    change (@new_month _ _ Term_class) with (Term.new_month (F := F)) in Hrun.
    erewrite (term_new_month_Ok _ _ _ _ _ _ s e) in Hrun
      by (done || apply lookup_insert_eq).
    injection Hrun as <-. simpl. repeat split; try done.
    intros r Hr. simpl in Hr. injection Hr as <-.
    eexists. split; [apply lookup_insert_eq | apply Hnew].
  - destruct IH as (Hs & He & IH). destruct w as [c h]. simpl in *.
    destruct (bill (term_base c)) as [r0 |] eqn:Hr0.
    + destruct (IH r0 Hr0) as (b & Hb & HP).
      simpl in Hb.
      change (@bill_call _ _ Term_class) with (Term.bill_call (F := F)) in Hrun.
      rewrite (term_bill_call_Ok c h r0 b call Hr0 Hb) in Hrun.
      injection Hrun as <-. simpl. repeat split; try done.
      intros r Hr. simpl in Hr. rewrite Hr0 in Hr. injection Hr as <-.
      eexists. split; [apply lookup_insert_eq |].
      pose proof (ceil_minutes_nonneg _ Hd).
      destruct (0 <? TERM_MINS - free_min b).
      * apply P_add_billed; [lia |]. by apply P_add_free.
      * by apply P_add_billed.
    + revert Hrun. change (@bill_call _ _ Term_class) with (Term.bill_call (F := F)).
      unfold Term.bill_call. exec_run. discriminate.
Qed.
End ReachableBills.

Lemma prepaid_reachable_bill `{Arith F}
    (s : date) (credit : F) (w : World F (PrepaidContract F)) :
  reachable (Prepaid.init s credit) w -> current_bill (fun _ => True) w.
Proof.
  induction 1 as [| w month year w' _ IH Hrun | w call w' _ IH Hd Hrun].
  - intros r Hr. discriminate.
  - rewrite cycle_unfold in Hrun.
    change (@new_month _ _ Prepaid_class) with (Prepaid.new_month (F := F)) in Hrun.
    set (r0 := fresh (dom (heap w))) in Hrun.
    assert (Hbal : is_Some (carried_balance (self w) (<[r0 := Bill.new]> (heap w)))).
    { unfold carried_balance.
      destruct (bill (prepaid_base (self w))) as [p |] eqn:Hp; [| done].
      destruct (IH p Hp) as (pb & Hpb & _).
      rewrite lookup_insert. case_decide; [done |]. by rewrite Hpb. }
    destruct Hbal as [bal Hbal].
    erewrite (prepaid_new_month_Ok _ _ _ _ _ _ bal) in Hrun
      by (done || apply lookup_insert_eq).
    injection Hrun as <-. intros r Hr. simpl in Hr. injection Hr as <-.
    eexists. split; [apply lookup_insert_eq | done].
  - destruct w as [c h]. intros r Hr.
    destruct (bill (prepaid_base c)) as [r0 |] eqn:Hr0.
    + destruct (IH r0 Hr0) as (b & Hb & _). simpl in Hb.
      rewrite (base_bill_call_Ok (HI := Prepaid_inherits) (HC := Prepaid_class)
                 (fun _ => eq_refl) c h r0 b call Hr0 Hb) in Hrun.
      injection Hrun as <-. simpl in Hr. rewrite Hr0 in Hr. injection Hr as <-.
      eexists. split; [apply lookup_insert_eq | done].
    + revert Hrun.
      change (@bill_call _ _ Prepaid_class) with (@Base.bill_call F (PrepaidContract F) Prepaid_inherits).
      unfold Base.bill_call. exec_run. discriminate.
Qed.

(** ** The amount owed when a line is closed *)







(** The same run in binary64: every amount involved is an integer, and
    the program returns the float -280.0, which is below 0. *)
Lemma term_cancel_contract_negative_binary64 :
  let w : World float TermContract :=
    final ((cycle 1 2020;; cycle 2 2020)
             (mkWorld (Term.init (mkDate 2020 1 15) (mkDate 2020 2 15)) ∅)) in
  exists w' : World float TermContract,
    cancel_contract w = Ok (lit (-280)) w' /\ flt (lit (-280)) (lit 0).
Proof.
  intros w. eexists. split; [vm_compute; reflexivity | by vm_compute].
Qed.



(** * Further properties of the code *)

(** ** Calls: rounding, empty calls, calls before any month *)

Lemma ceil_minutes_unique (d n : Z) :
  60 * (n - 1) < d <= 60 * n -> ceil_minutes d = n.
Proof. intros Hd. pose proof (ceil_minutes_bounds d). lia. Qed.

Lemma add_billed_minutes_0 `{Arith F} (b : Bill F) : Bill.add_billed_minutes 0 b = b.
Proof. destruct b. unfold Bill.add_billed_minutes. simpl. f_equal. lia. Qed.

Lemma add_free_minutes_0 `{Arith F} (b : Bill F) : Bill.add_free_minutes 0 b = b.
Proof. destruct b. unfold Bill.add_free_minutes. simpl. f_equal. lia. Qed.

(** X1. The [bill_call] of the base class, which the month-to-month and
    the prepaid contracts inherit, bills a call of [d] seconds as the one
    [n] with [60 * (n - 1) < d <= 60 * n]: the billed minutes grow by
    [n]; the free minutes, the rate and the fixed cost stay. *)
Theorem base_bill_call_rounds_up `{Arith F} {C : Type} `{Inherits C}
    (c : C) (h : gmap loc (Bill F)) (r : loc) (b : Bill F) (call : Call) (n : Z) :
  bill (base c) = Some r ->
  h !! r = Some b ->
  60 * (n - 1) < duration call <= 60 * n ->
  exists b' : Bill F,
    Base.bill_call call (mkWorld c h) = Ok tt (mkWorld c (<[r := b']> h)) /\
    billed_min b' = billed_min b + n /\
    free_min b' = free_min b /\
    min_rate b' = min_rate b /\
    fixed_cost b' = fixed_cost b.
Proof.
  intros Hr Hb Hd. exists (Bill.add_billed_minutes n b).
  split; [| by repeat split].
  unfold Base.bill_call. exec_run.
  rewrite (bill_update_Ok _ _ _ _ b Hb).
  by rewrite (ceil_minutes_unique _ _ Hd).
Qed.

(** A call of 61 seconds on a month-to-month bill is billed 2 minutes. *)
Lemma base_bill_call_rounds_up_witness :
  let c := mkMTM {| start := Some (mkDate 2020 1 15); bill := Some 1%positive |} in
  let b : Bill float :=
    Bill.set_rates "MTM" MTM_MINS_COST (Bill.add_fixed_cost (lit 50) Bill.new) in
  exists b' : Bill float,
    Base.bill_call (mkCall 61) (mkWorld c {[ 1%positive := b ]}) =
      Ok tt (mkWorld c (<[1%positive := b']> {[ 1%positive := b ]})) /\
    billed_min b' = 2.
Proof.
  intros c b.
  destruct (base_bill_call_rounds_up c {[ 1%positive := b ]} 1%positive b
              (mkCall 61) 2) as (b' & Hrun & Hbilled & _);
    [reflexivity | reflexivity | simpl; lia |].
  exists b'. split; [exact Hrun | exact Hbilled].
Defined.

Lemma base_bill_call_0 `{Arith F} {C : Type} `{Inherits C} (w : World F C) :
  final (Base.bill_call (mkCall 0) w) = w.
Proof.
  destruct w as [c h]. unfold Base.bill_call. exec_simpl.
  destruct (bill (base c)) as [r |]; [| done]. simpl.
  unfold bill_update. simpl.
  destruct (h !! r) as [b |] eqn:Hb; [| done].
  change (ceil_minutes 0) with 0.
  by rewrite add_billed_minutes_0, insert_id.
Qed.

Lemma term_bill_call_0 `{Arith F} (w : World F TermContract) :
  final (Term.bill_call (mkCall 0) w) = w.
Proof.
  destruct w as [c h].
  destruct (bill (term_base c)) as [r |] eqn:Hr.
  - destruct (h !! r) as [b |] eqn:Hb.
    + rewrite (term_bill_call_Ok c h r b (mkCall 0) Hr Hb). simpl.
      change (ceil_minutes 0) with 0.
      assert (Hmin : (0 <? TERM_MINS - free_min b) = true ->
                     Z.min 0 (TERM_MINS - free_min b) = 0).
      { intros Hpos. apply Z.ltb_lt in Hpos. lia. }
      destruct (0 <? TERM_MINS - free_min b).
      * rewrite Hmin by done. change (0 - 0) with 0.
        by rewrite add_free_minutes_0, add_billed_minutes_0, insert_id.
      * by rewrite add_billed_minutes_0, insert_id.
    + unfold Term.bill_call. by exec_run.
  - unfold Term.bill_call. by exec_run.
Qed.

(** X2. A call of 0 seconds changes nothing, whatever the contract and
    the state it is in: the contract and the whole store are as before
    (and the call raises exactly when it would raise for any call). *)
Theorem bill_call_zero_seconds `{Arith F} :
  (forall w : World F MTMContract, final (bill_call (mkCall 0) w) = w) /\
  (forall w : World F TermContract, final (bill_call (mkCall 0) w) = w) /\
  (forall w : World F (PrepaidContract F), final (bill_call (mkCall 0) w) = w).
Proof.
  split; [| split]; intros w.
  - apply base_bill_call_0.
  - apply term_bill_call_0.
  - apply base_bill_call_0.
Qed.

(** X3. A call billed on a contract that holds no bill (no month was
    started) raises, for every kind of contract, and leaves the contract
    and the store as they were. *)
Theorem bill_call_without_bill `{Arith F} (call : Call) :
  (forall w : World F MTMContract,
     bill (base (self w)) = None -> bill_call call w = Raise w) /\
  (forall w : World F TermContract,
     bill (base (self w)) = None -> bill_call call w = Raise w) /\
  (forall w : World F (PrepaidContract F),
     bill (base (self w)) = None -> bill_call call w = Raise w).
Proof.
  split; [| split]; intros [c h] Hr; simpl in Hr.
  - change (@bill_call _ _ MTM_class) with (@Base.bill_call F _ MTM_inherits).
    unfold Base.bill_call. by exec_run.
  - change (@bill_call _ _ Term_class) with (Term.bill_call (F := F)).
    unfold Term.bill_call. by exec_run.
  - change (@bill_call _ _ Prepaid_class) with (@Base.bill_call F (PrepaidContract F) Prepaid_inherits).
    unfold Base.bill_call. by exec_run.
Qed.

Lemma bill_call_without_bill_witness :
  let w : World float TermContract :=
    mkWorld (Term.init (mkDate 2020 1 15) (mkDate 2021 1 15)) ∅ in
  bill_call (mkCall 61) w = Raise w.
Proof.
  intros w.
  destruct (bill_call_without_bill (mkCall 61)) as (_ & Hterm & _).
  by apply Hterm.
Defined.

(** ** Closing a line: the base class, missing bills, closing twice *)

(** X4. The [cancel_contract] of the base class, which a month-to-month
    contract uses, returns the cost of the bill the contract holds and
    clears [start]; it keeps the reference to the bill and does not touch
    the store. *)
Theorem mtm_cancel_contract_returns_cost `{Arith F}
    (c : MTMContract) (h : gmap loc (Bill F)) (r : loc) (b : Bill F) :
  bill (mtm_base c) = Some r ->
  h !! r = Some b ->
  cancel_contract (mkWorld c h) =
    Ok (Bill.get_cost b)
       (mkWorld (mkMTM {| start := None; bill := Some r |}) h).
Proof.
  intros Hr Hb.
  change (@cancel_contract _ _ MTM_class) with (@Base.cancel_contract F _ _ MTM_inherits).
  unfold Base.cancel_contract. by exec_run.
Qed.

Lemma mtm_cancel_contract_returns_cost_witness :
  let c := mkMTM {| start := Some (mkDate 2020 1 15); bill := Some 1%positive |} in
  let b : Bill float := Bill.add_billed_minutes 3
             (Bill.set_rates "MTM" MTM_MINS_COST (Bill.add_fixed_cost (lit 50) Bill.new)) in
  exists w' : World float MTMContract,
    cancel_contract (mkWorld c {[ 1%positive := b ]}) = Ok (Bill.get_cost b) w' /\
    Bill.get_cost b = lit 50.15.
Proof.
  intros c b. eexists. split; [| reflexivity].
  apply (mtm_cancel_contract_returns_cost c {[ 1%positive := b ]} 1%positive b);
    reflexivity.
Defined.

(** X5. Closing a line that holds no bill raises, and what is left
    behind differs with the class: the base method (month-to-month) and
    the prepaid one have already cleared [start] when they raise, the
    prepaid one has not yet reset [balance], and the term one raises
    before it changes anything. *)
Theorem cancel_contract_without_bill `{Arith F} (h : gmap loc (Bill F)) :
  (forall c : MTMContract,
     bill (mtm_base c) = None ->
     cancel_contract (mkWorld c h) =
       Raise (mkWorld (mkMTM {| start := None; bill := None |}) h)) /\
  (forall c : TermContract,
     bill (term_base c) = None ->
     cancel_contract (mkWorld c h) = Raise (mkWorld c h)) /\
  (forall c : PrepaidContract F,
     bill (prepaid_base c) = None ->
     cancel_contract (mkWorld c h) =
       Raise (mkWorld {| prepaid_base := {| start := None; bill := None |};
                         balance := balance c |} h)).
Proof.
  split; [| split]; intros c Hr.
  - change (@cancel_contract _ _ MTM_class) with (@Base.cancel_contract F _ _ MTM_inherits).
    unfold Base.cancel_contract. by exec_run.
  - change (@cancel_contract _ _ Term_class) with (Term.cancel_contract (F := F)).
    unfold Term.cancel_contract. by exec_run.
  - change (@cancel_contract _ _ Prepaid_class) with (Prepaid.cancel_contract (F := F)).
    unfold Prepaid.cancel_contract. by exec_run.
Qed.

Lemma cancel_contract_without_bill_witness :
  let c : PrepaidContract float := Prepaid.init (mkDate 2020 1 15) (lit 40) in
  cancel_contract (mkWorld c ∅) =
    Raise (mkWorld {| prepaid_base := {| start := None; bill := None |};
                      balance := lit (-40) |} ∅).
Proof.
  intros c.
  destruct (cancel_contract_without_bill ∅) as (_ & _ & Hprepaid).
  by apply (Hprepaid c).
Defined.

(** What a successful closing tells about the state it started from. *)
Lemma mtm_cancel_contract_inv `{Arith F} (w w' : World F MTMContract) (amount : F) :
  cancel_contract w = Ok amount w' ->
  exists (r : loc) (b : Bill F),
    bill (mtm_base (self w)) = Some r /\ heap w !! r = Some b /\
    amount = Bill.get_cost b /\
    w' = mkWorld (mkMTM {| start := None; bill := Some r |}) (heap w).
Proof.
  destruct w as [c h].
  change (@cancel_contract _ _ MTM_class) with (@Base.cancel_contract F _ _ MTM_inherits).
  unfold Base.cancel_contract. exec_simpl.
  destruct (bill (mtm_base c)) as [r |] eqn:Hr; [| discriminate]. exec_simpl.
  destruct (h !! r) as [b |] eqn:Hb; [| discriminate]. exec_simpl.
  intros Heq. inversion Heq; subst. exists r, b. repeat split; done.
Qed.

Lemma term_cancel_contract_inv `{Arith F} (w w' : World F TermContract) (amount : F) :
  cancel_contract w = Ok amount w' ->
  exists (r : loc) (b : Bill F),
    bill (term_base (self w)) = Some r /\ heap w !! r = Some b /\
    amount = (if commit (self w) then fsub (Bill.get_cost b) TERM_DEPOSIT
              else Bill.get_cost b) /\
    w' = mkWorld {| term_base := {| start := None; bill := Some r |};
                    end_ := None; commit := commit (self w) |} (heap w).
Proof.
  destruct w as [c h].
  change (@cancel_contract _ _ Term_class) with (Term.cancel_contract (F := F)).
  unfold Term.cancel_contract. exec_simpl.
  destruct (bill (term_base c)) as [r |] eqn:Hr; [| discriminate]. exec_simpl.
  destruct (h !! r) as [b |] eqn:Hb; [| discriminate]. exec_simpl. rewrite ?Hr.
  intros Heq. inversion Heq; subst. exists r, b. repeat split; done.
Qed.

Lemma prepaid_cancel_contract_inv `{Arith F} (w w' : World F (PrepaidContract F)) (amount : F) :
  cancel_contract w = Ok amount w' ->
  exists (r : loc) (b : Bill F),
    bill (prepaid_base (self w)) = Some r /\ heap w !! r = Some b /\
    amount = (if decide (flt (Bill.get_cost b) (lit 0)) then lit 0 else Bill.get_cost b) /\
    w' = mkWorld {| prepaid_base := {| start := None; bill := Some r |};
                    balance := lit 0 |} (heap w).
Proof.
  destruct w as [c h].
  change (@cancel_contract _ _ Prepaid_class) with (Prepaid.cancel_contract (F := F)).
  unfold Prepaid.cancel_contract. exec_simpl.
  destruct (bill (prepaid_base c)) as [r |] eqn:Hr; [| discriminate]. exec_simpl.
  destruct (h !! r) as [b |] eqn:Hb; [| discriminate]. exec_simpl.
  rewrite Hb. exec_simpl.
  intros Heq. inversion Heq; subst. exists r, b. repeat split; done.
Qed.

(** X6. A line can be closed again: for every kind of contract, once
    [cancel_contract] has returned, calling it a second time returns the
    same amount and changes nothing more. *)
Theorem cancel_contract_twice `{Arith F} :
  (forall (w w' : World F MTMContract) (amount : F),
     cancel_contract w = Ok amount w' -> cancel_contract w' = Ok amount w') /\
  (forall (w w' : World F TermContract) (amount : F),
     cancel_contract w = Ok amount w' -> cancel_contract w' = Ok amount w') /\
  (forall (w w' : World F (PrepaidContract F)) (amount : F),
     cancel_contract w = Ok amount w' -> cancel_contract w' = Ok amount w').
Proof.
  split; [| split]; intros w w' amount Hrun.
  - destruct (mtm_cancel_contract_inv w w' amount Hrun)
      as (r & b & Hr & Hb & -> & ->).
    change (@cancel_contract _ _ MTM_class) with (@Base.cancel_contract F _ _ MTM_inherits).
    unfold Base.cancel_contract. by exec_run.
  - destruct (term_cancel_contract_inv w w' amount Hrun)
      as (r & b & Hr & Hb & -> & ->).
    change (@cancel_contract _ _ Term_class) with (Term.cancel_contract (F := F)).
    unfold Term.cancel_contract. by exec_run.
  - destruct (prepaid_cancel_contract_inv w w' amount Hrun)
      as (r & b & Hr & Hb & -> & ->).
    change (@cancel_contract _ _ Prepaid_class) with (Prepaid.cancel_contract (F := F)).
    unfold Prepaid.cancel_contract. by exec_run.
Qed.

Lemma cancel_contract_twice_witness :
  let c := {| term_base := {| start := Some (mkDate 2020 1 15); bill := Some 1%positive |};
              end_ := Some (mkDate 2020 2 15); commit := true |} in
  let b : Bill float := Bill.set_rates "TERM" TERM_MINS_COST (Bill.add_fixed_cost (lit 20) Bill.new) in
  let w' := final (cancel_contract (mkWorld c {[ 1%positive := b ]})) in
  cancel_contract w' = Ok (fsub (Bill.get_cost b) TERM_DEPOSIT) w'.
Proof.
  intros c b w'.
  destruct (cancel_contract_twice (F := float)) as (_ & Hterm & _).
  apply (Hterm (mkWorld c {[ 1%positive := b ]})).
  reflexivity.
Defined.

Lemma term_new_month_no_start `{Arith F}
    (month_ year_ : Z) (r : loc) (w : World F TermContract) :
  start (term_base (self w)) = None ->
  Term.new_month month_ year_ r w = Raise w.
Proof.
  destruct w as [c h]. simpl. intros Hs.
  unfold Term.new_month. by exec_run.
Qed.

(** X7. A term contract that has been closed takes no further month:
    after [cancel_contract] has returned, every [new_month] raises and
    leaves the contract and the store, the bill it was given included,
    as they were. *)
Theorem term_new_month_after_cancel `{Arith F}
    (w w' : World F TermContract) (amount : F) (month_ year_ : Z) (r : loc) :
  cancel_contract w = Ok amount w' ->
  new_month month_ year_ r w' = Raise w'.
Proof.
  intros Hrun.
  destruct (term_cancel_contract_inv w w' amount Hrun)
    as (r0 & b & _ & _ & _ & ->).
  by apply term_new_month_no_start.
Qed.

Lemma term_new_month_after_cancel_witness :
  let c := {| term_base := {| start := Some (mkDate 2020 1 15); bill := Some 1%positive |};
              end_ := Some (mkDate 2020 2 15); commit := false |} in
  let h : gmap loc (Bill float) := {[ 1%positive := Bill.new; 2%positive := Bill.new ]} in
  let w' := final (cancel_contract (mkWorld c h)) in
  new_month 2 2020 2%positive w' = Raise w'.
Proof.
  intros c h w'.
  apply (term_new_month_after_cancel (mkWorld c h) w' (Bill.get_cost Bill.new)).
  reflexivity.
Defined.

(** ** The start of a month: what it leaves alone *)

(** Between [w] and [w'] the start date of the contract is kept and no
    bill but the one at [r] has changed. *)
Definition touches_only `{Arith F} {C : Type} `{Inherits C} (r : loc) (w w' : World F C) : Prop :=
  start (base (self w')) = start (base (self w)) /\
  forall r' : loc, r' <> r -> heap w' !! r' = heap w !! r'.

Ltac frame_cases :=
  exec_cases; simplify_eq; simpl in *;
  repeat split; try done;
  intros; simplify_eq; simpl; rewrite ?lookup_insert_ne by done; done.

Lemma mtm_new_month_frame `{Arith F} (month year : Z) (r : loc) (w : World F MTMContract) :
  touches_only r w (final (MTM.new_month month year r w)) /\
  (forall w', MTM.new_month month year r w = Ok tt w' ->
              bill (mtm_base (self w')) = Some r).
Proof.
  destruct w as [c h]. unfold touches_only, MTM.new_month. frame_cases.
Qed.

Lemma term_new_month_frame `{Arith F} (month_ year_ : Z) (r : loc) (w : World F TermContract) :
  touches_only r w (final (Term.new_month month_ year_ r w)) /\
  end_ (self (final (Term.new_month month_ year_ r w))) = end_ (self w) /\
  (forall w', Term.new_month month_ year_ r w = Ok tt w' ->
              bill (term_base (self w')) = Some r).
Proof.
  destruct w as [c h]. unfold touches_only, Term.new_month. frame_cases.
Qed.

Lemma prepaid_new_month_frame `{Arith F} (month year : Z) (r : loc) (w : World F (PrepaidContract F)) :
  touches_only r w (final (Prepaid.new_month month year r w)) /\
  (forall w', Prepaid.new_month month year r w = Ok tt w' ->
              bill (prepaid_base (self w')) = Some r).
Proof.
  destruct w as [c h]. unfold touches_only, Prepaid.new_month. frame_cases.
Qed.

(** X8. Whatever the contract, the state, the month and the year, and
    whether it returns or raises, [new_month] keeps [start] (and [end] on
    a term contract) and changes no bill of the store but the one it is
    given; when it returns, the contract refers to that bill. *)
Theorem new_month_touches_its_bill_only `{Arith F} (month_ year_ : Z) (r : loc) :
  (forall w : World F MTMContract,
     touches_only r w (final (new_month month_ year_ r w)) /\
     (forall w', new_month month_ year_ r w = Ok tt w' ->
                 bill (base (self w')) = Some r)) /\
  (forall w : World F TermContract,
     touches_only r w (final (new_month month_ year_ r w)) /\
     end_ (self (final (new_month month_ year_ r w))) = end_ (self w) /\
     (forall w', new_month month_ year_ r w = Ok tt w' ->
                 bill (base (self w')) = Some r)) /\
  (forall w : World F (PrepaidContract F),
     touches_only r w (final (new_month month_ year_ r w)) /\
     (forall w', new_month month_ year_ r w = Ok tt w' ->
                 bill (base (self w')) = Some r)).
Proof.
  split; [| split]; intros w.
  - apply mtm_new_month_frame.
  - apply term_new_month_frame.
  - apply prepaid_new_month_frame.
Qed.

(** A second month on a term contract leaves the bill of the first
    month, with its free and billed minutes, as it was. *)
Lemma new_month_touches_its_bill_only_witness :
  let c := {| term_base := {| start := Some (mkDate 2020 1 15); bill := Some 1%positive |};
              end_ := Some (mkDate 2021 1 15); commit := false |} in
  let b : Bill float := {| billed_min := 17; free_min := 100; min_rate := TERM_MINS_COST;
              fixed_cost := lit 320; rate_label := "TERM" |} in
  let h : gmap loc (Bill float) := {[ 1%positive := b; 2%positive := Bill.new ]} in
  heap (final (new_month 2 2020 2%positive (mkWorld c h))) !! 1%positive = Some b.
Proof.
  intros c b h.
  destruct (new_month_touches_its_bill_only 2 2020 2%positive)
    as (_ & Hterm & _).
  destruct (Hterm (mkWorld c h)) as ((_ & Hothers) & _).
  by rewrite Hothers.
Defined.

(** ** Term contract: dates and commitment over any use *)

(** The dates of a term contract made with [s] and [e]: both as made, or
    both cleared. *)
Definition term_dates (s e : date) (c : TermContract) : Prop :=
  (start (term_base c) = Some s /\ end_ c = Some e) \/
  (start (term_base c) = None /\ end_ c = None).

Lemma term_cancel_contract_dates `{Arith F} (s e : date) (w : World F TermContract) :
  term_dates s e (self w) ->
  term_dates s e (self (final (Term.cancel_contract w))).
Proof.
  intros Hd. destruct w as [c h]. unfold term_dates, Term.cancel_contract in *.
  exec_cases; simplify_eq; simpl in *; try done.
  all: by right.
Qed.

Lemma term_exec_op_dates `{Arith F} (s e : date) (o : op) (w : World F TermContract) :
  term_dates s e (self w) -> term_dates s e (self (exec_op o w)).
Proof.
  intros Hd. destruct o as [month_ year_ r | call |]; unfold exec_op.
  - destruct (term_new_month_frame month_ year_ r w) as ((Hs & _) & He & _).
    unfold term_dates in *. simpl in Hs.
    change (@new_month _ _ Term_class) with (Term.new_month (F := F)).
    by rewrite Hs, He.
  - destruct (term_bill_call_frame call w) as [Hself _].
    change (@bill_call _ _ Term_class) with (Term.bill_call (F := F)).
    by rewrite Hself.
  - by apply term_cancel_contract_dates.
Qed.

Lemma term_exec_ops_dates `{Arith F} (s e : date) (ops : list op) :
  forall w : World F TermContract,
    term_dates s e (self w) -> term_dates s e (self (exec_ops ops w)).
Proof.
  induction ops as [| o rest IH]; intros w Hd; [done |].
  unfold exec_ops. simpl. apply IH. by apply term_exec_op_dates.
Qed.

(** X9. However a term contract made with the dates [s] and [e] is used
    (any months, calls and closings, in any order, with any bills, some
    of them raising), its [start] and [end] are either both as they were
    made or both cleared: never one without the other, and never another
    date. *)
Theorem term_dates_kept_or_cleared `{Arith F}
    (s e : date) (h : gmap loc (Bill F)) (ops : list op) :
  term_dates s e (self (exec_ops ops (mkWorld (Term.init s e) h))).
Proof. apply term_exec_ops_dates. by left. Qed.

Lemma term_exec_op_commit_origin `{Arith F} (e : date) (o : op) (w : World F TermContract) :
  end_ (self w) = Some e \/ end_ (self w) = None ->
  commit (self (exec_op o w)) = true ->
  commit (self w) = true \/ exists r : loc, o = NewMonth (month e) (year e) r.
Proof.
  intros He Hc. destruct o as [month_ year_ r | call |]; unfold exec_op in Hc.
  - destruct (term_new_month_commit_origin month_ year_ r w Hc)
      as [Hw | (e' & He' & -> & ->)]; [by left |].
    right. exists r. destruct He as [He | He]; congruence.
  - left. destruct (term_bill_call_frame call w) as [Hself _].
    change (@bill_call _ _ Term_class) with (Term.bill_call (F := F)) in Hc.
    by rewrite Hself in Hc.
  - left. revert Hc. destruct w as [c h].
    change (@cancel_contract _ _ Term_class) with (Term.cancel_contract (F := F)).
    unfold Term.cancel_contract. exec_cases; simplify_eq; simpl in *; done.
Qed.

Lemma term_exec_ops_commit_origin `{Arith F} (s e : date) (ops : list op) :
  forall w : World F TermContract,
    term_dates s e (self w) ->
    commit (self (exec_ops ops w)) = true ->
    commit (self w) = true \/
    exists r : loc, In (NewMonth (month e) (year e) r) ops.
Proof.
  induction ops as [| o rest IH]; intros w Hd Hc; [by left |].
  unfold exec_ops in Hc. simpl in Hc.
  destruct (IH (exec_op o w) (term_exec_op_dates s e o w Hd) Hc)
    as [Hstep | (r & Hin)].
  - destruct (term_exec_op_commit_origin e o w) as [Hw | (r & ->)]; try done.
    + destruct Hd as [[_ He] | [_ He]]; [by left | by right].
    + by left.
    + right. exists r. by left.
  - right. exists r. by right.
Qed.

(** X10. The only way to the refund of the deposit is the month of the
    end date: however a term contract made with the end date [e] is
    used, if [commit] holds afterwards then one of the operations was a
    [new_month] with the month and the year of [e]. *)
Theorem term_commit_needs_end_month `{Arith F}
    (s e : date) (h : gmap loc (Bill F)) (ops : list op) :
  commit (self (exec_ops ops (mkWorld (Term.init s e) h))) = true ->
  exists r : loc, In (NewMonth (month e) (year e) r) ops.
Proof.
  intros Hc.
  destruct (term_exec_ops_commit_origin s e ops (mkWorld (Term.init s e) h))
    as [Hinit | Hin]; try done.
  by left.
Qed.

Lemma term_commit_needs_end_month_witness :
  let ops := [NewMonth 1 2020 1%positive; BillCall (mkCall 61);
              NewMonth 2 2020 2%positive] in
  exists r : loc, In (NewMonth 2 2020 r) ops.
Proof.
  intros ops.
  apply (term_commit_needs_end_month (F := float)
           (mkDate 2020 1 15) (mkDate 2020 2 15)
           {[ 1%positive := Bill.new; 2%positive := Bill.new ]} ops).
  by vm_compute.
Defined.

(** ** The cost of a whole month *)

(** The bill of a term contract after a month started with a new bill
    and calls of non-negative durations. *)
Lemma term_month_bill `{Arith F}
    (c : TermContract) (h : gmap loc (Bill F)) (month_ year_ : Z) (r : loc)
    (s e : date) (calls : list Call) :
  start (term_base c) = Some s ->
  end_ c = Some e ->
  h !! r = Some Bill.new ->
  Forall (fun call => 0 <= duration call) calls ->
  exists (w' : World F TermContract) (b' : Bill F),
    (new_month month_ year_ r;; bill_calls calls) (mkWorld c h) = Ok tt w' /\
    bill (term_base (self w')) = Some r /\
    heap w' !! r = Some b' /\
    free_min b' = Z.min 100 (total_minutes calls) /\
    billed_min b' = Z.max 0 (total_minutes calls - 100) /\
    min_rate b' = lit 0.1 /\
    fixed_cost b' =
      (if (month s =? month_) && (year s =? year_)
       then fadd (fadd (lit 0) (lit 300)) (lit 20)
       else fadd (lit 0) (lit 20)).
Proof.
  intros Hs He Hb Hd.
  pose proof (term_new_month_Ok c h month_ year_ r Bill.new s e Hs He Hb) as Hmonth.
  set (c1 := mkTerm _ _ _) in Hmonth.
  set (b1 := Bill.add_fixed_cost _ _) in Hmonth.
  destruct (term_bill_calls_pool calls c1 (<[r := b1]> h) r b1 eq_refl
              (lookup_insert_eq h r b1) Hd)
    as (h' & b' & Hrun & Hb' & Hfree & Hsum & Hrate & Hfixed).
  pose proof (total_minutes_nonneg calls Hd) as Htotal.
  assert (Hcounts : billed_min b1 = 0 /\ free_min b1 = 0).
  { subst b1. by destruct ((month s =? month_) && (year s =? year_)). }
  destruct Hcounts as [Hbilled1 Hfree1].
  rewrite Hbilled1, Hfree1 in *.
  exists (mkWorld c1 h'), b'. split.
  { exec_simpl. change (@new_month _ _ Term_class) with (Term.new_month (F := F)).
    by rewrite Hmonth. }
  split; [done |]. split; [done |]. split; [lia |]. split; [lia |].
  rewrite Hrate, Hfixed. subst b1.
  by destruct ((month s =? month_) && (year s =? year_)).
Qed.

(** X11. A month of a term contract, started with a new bill and
    followed by calls of non-negative durations totalling [t] whole
    minutes: [min 100 t] minutes are free, [p = max 0 (t - 100)] are
    billed, and the bill costs the float [320.0 + float(p) * 0.1] in the
    month of [start] and [20.0 + float(p) * 0.1] in any other month,
    each operation rounded to binary64, whatever the earlier months
    used. *)
Theorem term_month_total_cost
    (c : TermContract) (h : gmap loc (Bill float)) (month_ year_ : Z) (r : loc)
    (s e : date) (calls : list Call) :
  start (term_base c) = Some s ->
  end_ c = Some e ->
  h !! r = Some Bill.new ->
  Forall (fun call => 0 <= duration call) calls ->
  exists (w' : World float TermContract) (b' : Bill float),
    (new_month month_ year_ r;; bill_calls calls) (mkWorld c h) = Ok tt w' /\
    bill (term_base (self w')) = Some r /\
    heap w' !! r = Some b' /\
    free_min b' = Z.min 100 (total_minutes calls) /\
    billed_min b' = Z.max 0 (total_minutes calls - 100) /\
    (month s = month_ /\ year s = year_ ->
     Bill.get_cost b' =
       fadd (lit 320) (fmul (of_int (Z.max 0 (total_minutes calls - 100))) (lit 0.1))) /\
    (~ (month s = month_ /\ year s = year_) ->
     Bill.get_cost b' =
       fadd (lit 20) (fmul (of_int (Z.max 0 (total_minutes calls - 100))) (lit 0.1))).
Proof.
  intros Hs He Hb Hd.
  destruct (term_month_bill c h month_ year_ r s e calls Hs He Hb Hd)
    as (w' & b' & Hrun & Hr & Hb' & Hfree & Hbilled & Hrate & Hfixed).
  exists w', b'. repeat (split; [done |]).
  unfold Bill.get_cost. rewrite Hrate, Hfixed, Hbilled.
  destruct ((month s =? month_) && (year s =? year_)) eqn:Hfirst.
  - split; intros Hyes; [reflexivity |].
    exfalso. apply Hyes. apply andb_true_iff in Hfirst as [Hm Hy].
    by apply Z.eqb_eq in Hm, Hy.
  - split; intros Hyes; [| reflexivity].
    exfalso. destruct Hyes as [Hm Hy].
    apply andb_false_iff in Hfirst as [Hf | Hf];
      apply Z.eqb_neq in Hf; contradiction.
Qed.

(** The example of the spec: a first month with calls of 3000 and 4000
    seconds costs 321.70. *)
Lemma term_month_total_cost_witness :
  exists (w' : World float TermContract) (b' : Bill float),
    (new_month 1 2020 1%positive;; bill_calls [mkCall 3000; mkCall 4000])
      (mkWorld (Term.init (mkDate 2020 1 15) (mkDate 2021 1 15))
               {[ 1%positive := Bill.new ]}) = Ok tt w' /\
    heap w' !! 1%positive = Some b' /\
    Bill.get_cost b' = lit 321.7.
Proof.
  destruct (term_month_total_cost
              (Term.init (mkDate 2020 1 15) (mkDate 2021 1 15))
              {[ 1%positive := Bill.new ]} 1 2020 1%positive
              (mkDate 2020 1 15) (mkDate 2021 1 15) [mkCall 3000; mkCall 4000])
    as (w' & b' & Hrun & _ & Hb' & _ & _ & Hcost & _);
    [reflexivity | reflexivity | reflexivity | repeat constructor; simpl; lia |].
  exists w', b'. split; [exact Hrun |]. split; [exact Hb' |].
  rewrite Hcost by done. reflexivity.
Defined.

(** X12. A month of a prepaid contract, started with a new bill and
    followed by calls totalling [t] whole minutes, bills [t] minutes and
    costs [(0 + b) + float(t) * 0.025] in the arithmetic of the program,
    where [b] is the balance carried into the month, less 25.00 when
    that balance is above -10.00. *)
Theorem prepaid_month_total_cost `{Arith F}
    (c : PrepaidContract F) (h : gmap loc (Bill F)) (month year : Z) (r : loc)
    (bal : F) (calls : list Call) :
  carried_balance c h = Some bal ->
  h !! r = Some Bill.new ->
  exists (w' : World F (PrepaidContract F)) (b' : Bill F),
    (new_month month year r;; bill_calls calls) (mkWorld c h) = Ok tt w' /\
    bill (prepaid_base (self w')) = Some r /\
    heap w' !! r = Some b' /\
    billed_min b' = total_minutes calls /\
    (flt (lit (-10)) bal ->
     Bill.get_cost b' =
       fadd (fadd (lit 0) (fsub bal (lit 25)))
            (fmul (of_int (total_minutes calls)) (lit 0.025))) /\
    (~ flt (lit (-10)) bal ->
     Bill.get_cost b' =
       fadd (fadd (lit 0) bal)
            (fmul (of_int (total_minutes calls)) (lit 0.025))).
Proof.
  intros Hbal Hb.
  pose proof (prepaid_new_month_Ok c h month year r Bill.new bal Hbal Hb) as Hmonth.
  simpl in Hmonth.
  set (c1 := mkPrepaid _ _) in Hmonth.
  set (b1 := Bill.set_rates _ _ _) in Hmonth.
  destruct (base_bill_calls_total (HI := Prepaid_inherits) (HC := Prepaid_class)
              (fun _ => eq_refl) calls c1 (<[r := b1]> h) r b1 eq_refl
              (lookup_insert_eq h r b1))
    as (h' & b' & Hrun & Hb' & Hbilled & _ & Hrate & Hfixed & _).
  exists (mkWorld c1 h'), b'. split.
  { exec_simpl. change (@new_month _ _ Prepaid_class) with (Prepaid.new_month (F := F)).
    by rewrite Hmonth. }
  split; [done |]. split; [done |].
  subst b1. simpl in *. rewrite Z.add_0_l in Hbilled. split; [done |].
  unfold Bill.get_cost. rewrite Hrate, Hfixed, Hbilled.
  case_decide as Hcase; split; intros Hcase'; done.
Qed.

(** A balance of 5.00 owed is recharged to -20.00; 61 seconds are then
    2 minutes at 0.025. *)
Lemma prepaid_month_total_cost_witness :
  let c : PrepaidContract float :=
    {| prepaid_base := {| start := Some (mkDate 2020 1 15); bill := None |};
       balance := lit 5 |} in
  exists (w' : World float (PrepaidContract float)) (b' : Bill float),
    (new_month 1 2020 1%positive;; bill_calls [mkCall 61])
      (mkWorld c {[ 1%positive := Bill.new ]}) = Ok tt w' /\
    heap w' !! 1%positive = Some b' /\
    Bill.get_cost b' = lit (-19.95).
Proof.
  intros c.
  destruct (prepaid_month_total_cost c {[ 1%positive := Bill.new ]} 1 2020
              1%positive (lit 5) [mkCall 61])
    as (w' & b' & Hrun & _ & Hb' & _ & Hcost & _); [reflexivity | reflexivity |].
  exists w', b'. split; [exact Hrun |]. split; [exact Hb' |].
  rewrite Hcost by (by vm_compute). reflexivity.
Defined.

(** X13. The first month of a prepaid contract made with a credit of
    [k]: the constructor keeps [-1 * k] as balance; the month takes 25.00
    off it exactly when it is above -10.00 and adds the result to the
    fixed cost of the bill, each operation in the arithmetic of the
    program (for floats, rounded to binary64). *)
Theorem prepaid_first_month_credit `{Arith F}
    (s : date) (k : F) (h : gmap loc (Bill F)) (month year : Z) (r : loc) :
  h !! r = Some Bill.new ->
  exists (c' : PrepaidContract F) (h' : gmap loc (Bill F)) (b' : Bill F),
    new_month month year r (mkWorld (Prepaid.init s k) h) =
      Ok tt (mkWorld c' h') /\
    h' !! r = Some b' /\
    fixed_cost b' = fadd (lit 0) (balance c') /\
    (flt (lit (-10)) (fmul (lit (-1)) k) ->
     balance c' = fsub (fmul (lit (-1)) k) (lit 25)) /\
    (~ flt (lit (-10)) (fmul (lit (-1)) k) ->
     balance c' = fmul (lit (-1)) k).
Proof.
  intros Hb.
  change (@new_month _ _ Prepaid_class) with (Prepaid.new_month (F := F)).
  rewrite (prepaid_new_month_Ok (Prepaid.init s k) h month year r Bill.new
             (fmul (lit (-1)) k) eq_refl Hb).
  eexists _, _, _. split; [reflexivity |].
  split; [apply lookup_insert_eq |]. simpl.
  split; [done |].
  case_decide as Hcase; split; intros Hcase'; done.
Qed.

(** A credit of 4.00 is topped up: the first bill starts at -29.00. *)
Lemma prepaid_first_month_credit_witness :
  exists (c' : PrepaidContract float) (h' : gmap loc (Bill float)) (b' : Bill float),
    new_month 1 2020 1%positive
      (mkWorld (Prepaid.init (mkDate 2020 1 15) (lit 4)) {[ 1%positive := Bill.new ]}) =
      Ok tt (mkWorld c' h') /\
    h' !! 1%positive = Some b' /\
    fixed_cost b' = lit (-29).
Proof.
  destruct (prepaid_first_month_credit (mkDate 2020 1 15) (lit 4)
              {[ 1%positive := Bill.new ]} 1 2020 1%positive)
    as (c' & h' & b' & Hrun & Hb' & Hfixed & Hlow & _); [reflexivity |].
  exists c', h', b'. split; [exact Hrun |]. split; [exact Hb' |].
  rewrite Hfixed, Hlow by (by vm_compute). reflexivity.
Defined.

(** ** Prepaid contract: the balance attribute *)

(** X14. Once a prepaid contract holds a bill, the value of its
    [balance] attribute plays no part in the start of a month: the
    balance is read from the bill held.  In particular the reset of
    [balance] to 0 by [cancel_contract] does not show in a later month. *)
Theorem prepaid_new_month_ignores_balance `{Arith F}
    (c : PrepaidContract F) (h : gmap loc (Bill F)) (month year : Z) (r p : loc)
    (pb : Bill F) (x : F) :
  bill (prepaid_base c) = Some p ->
  h !! p = Some pb ->
  new_month month year r (mkWorld (mkPrepaid (prepaid_base c) x) h) =
  new_month month year r (mkWorld c h).
Proof.
  intros Hp Hpb.
  change (@new_month _ _ Prepaid_class) with (Prepaid.new_month (F := F)).
  unfold Prepaid.new_month. exec_run. reflexivity.
Qed.

Lemma prepaid_new_month_ignores_balance_witness :
  let base := {| start := None; bill := Some 1%positive |} in
  let b : Bill float :=
    Bill.set_rates "PREPAID" PREPAID_MINS_COST (Bill.add_fixed_cost (lit (-40)) Bill.new) in
  let h : gmap loc (Bill float) := {[ 1%positive := b; 2%positive := Bill.new ]} in
  new_month 2 2020 2%positive (mkWorld (mkPrepaid base (lit 0)) h) =
  new_month 2 2020 2%positive (mkWorld (mkPrepaid base (lit (-40))) h).
Proof.
  intros base b h.
  apply (prepaid_new_month_ignores_balance (mkPrepaid base (lit (-40))) h 2 2020
           2%positive 1%positive b (lit 0)); reflexivity.
Defined.

(** ** Calls and the cost of the bill *)

(** The lemmas of this part are about the order of amounts, and are
    stated in exact arithmetic. *)


Lemma get_cost_add_free_minutes `{Arith F} (n : Z) (b : Bill F) :
  Bill.get_cost (Bill.add_free_minutes n b) = Bill.get_cost b.
Proof. reflexivity. Qed.




(** X16. On a term contract, a call of non-negative duration that fits
    in what is left of the pool of 100 free minutes is free: its whole
    minutes go to the free minutes of the bill, the billed minutes and
    the cost of the bill stay as they were. *)
Theorem term_bill_call_within_pool `{Arith F}
    (c : TermContract) (h : gmap loc (Bill F)) (r : loc) (b : Bill F) (call : Call) :
  bill (term_base c) = Some r ->
  h !! r = Some b ->
  0 <= duration call ->
  free_min b + ceil_minutes (duration call) <= 100 ->
  exists b' : Bill F,
    Term.bill_call call (mkWorld c h) = Ok tt (mkWorld c (<[r := b']> h)) /\
    free_min b' = free_min b + ceil_minutes (duration call) /\
    billed_min b' = billed_min b /\
    Bill.get_cost b' = Bill.get_cost b.
Proof.
  intros Hr Hb Hd Hfit. pose proof (ceil_minutes_nonneg _ Hd) as Hmin.
  eexists. split; [apply (term_bill_call_Ok c h r b call Hr Hb) |].
  simpl. unfold TERM_MINS.
  destruct (0 <? 100 - free_min b) eqn:Hpool;
    [apply Z.ltb_lt in Hpool | apply Z.ltb_ge in Hpool].
  - assert (Hpaid : billed_min b +
                    (ceil_minutes (duration call) -
                     Z.min (ceil_minutes (duration call)) (100 - free_min b)) =
                    billed_min b) by lia.
    unfold Bill.get_cost. simpl. rewrite Hpaid.
    repeat split; try done. lia.
  - assert (Hzero : ceil_minutes (duration call) = 0) by lia.
    unfold Bill.get_cost. simpl. rewrite Hzero, !Z.add_0_r.
    repeat split; done.
Qed.

Lemma term_bill_call_within_pool_witness :
  let c := {| term_base := {| start := Some (mkDate 2020 1 15); bill := Some 1%positive |};
              end_ := Some (mkDate 2021 1 15); commit := false |} in
  let b : Bill float := {| billed_min := 0; free_min := 50; min_rate := TERM_MINS_COST;
              fixed_cost := lit 320; rate_label := "TERM" |} in
  exists b' : Bill float,
    Term.bill_call (mkCall 3000) (mkWorld c {[ 1%positive := b ]}) =
      Ok tt (mkWorld c (<[1%positive := b']> {[ 1%positive := b ]})) /\
    free_min b' = 100 /\
    Bill.get_cost b' = Bill.get_cost b.
Proof.
  intros c b.
  destruct (term_bill_call_within_pool c {[ 1%positive := b ]} 1%positive b
              (mkCall 3000))
    as (b' & Hrun & Hfree & _ & Hcost);
    [reflexivity | reflexivity | simpl; lia | by vm_compute |].
  exists b'. split; [exact Hrun |]. split; [| exact Hcost].
  rewrite Hfree. reflexivity.
Defined.

(** ** Starting the same month twice *)

(** X17. Nothing guards against starting a month twice with the same
    bill: the charges are added each time.  A month-to-month bill then
    carries the fee of 50.00 twice, and the bill of the first month of a
    term contract carries the deposit of 300.00 and the fee of 20.00
    twice. *)
Theorem new_month_twice_charges_twice `{Arith F}
    (h : gmap loc (Bill F)) (r : loc) (nb : Bill F) (month_ year_ : Z) :
  h !! r = Some nb ->
  (forall c : MTMContract,
     exists (w' : World F MTMContract) (b' : Bill F),
       (new_month month_ year_ r;; new_month month_ year_ r) (mkWorld c h) =
         Ok tt w' /\
       heap w' !! r = Some b' /\
       fixed_cost b' = fadd (fadd (fixed_cost nb) (lit 50)) (lit 50)) /\
  (forall (c : TermContract) (s e : date),
     start (term_base c) = Some s ->
     end_ c = Some e ->
     month s = month_ -> year s = year_ ->
     exists (w' : World F TermContract) (b' : Bill F),
       (new_month month_ year_ r;; new_month month_ year_ r) (mkWorld c h) =
         Ok tt w' /\
       heap w' !! r = Some b' /\
       fixed_cost b' =
         fadd (fadd (fadd (fadd (fixed_cost nb) (lit 300)) (lit 20)) (lit 300)) (lit 20)).
Proof.
  intros Hb. split.
  - intros c. eexists _, _. split.
    + exec_simpl. change (@new_month _ _ MTM_class) with (MTM.new_month (F := F)).
      rewrite (mtm_new_month_Ok c h month_ year_ r nb Hb).
      apply mtm_new_month_Ok. apply lookup_insert_eq.
    + simpl. split; [apply lookup_insert_eq | done].
  - intros c s e Hs He Hm Hy. eexists _, _. split.
    + exec_simpl. change (@new_month _ _ Term_class) with (Term.new_month (F := F)).
      rewrite (term_new_month_Ok c h month_ year_ r nb s e Hs He Hb).
      eapply term_new_month_Ok; [reflexivity | reflexivity |].
      apply lookup_insert_eq.
    + simpl. split; [apply lookup_insert_eq |].
      subst month_ year_. by rewrite !Z.eqb_refl.
Qed.

Lemma new_month_twice_charges_twice_witness :
  exists (w' : World float MTMContract) (b' : Bill float),
    (new_month 1 2020 1%positive;; new_month 1 2020 1%positive)
      (mkWorld (MTM.init (mkDate 2020 1 15)) {[ 1%positive := Bill.new ]}) =
      Ok tt w' /\
    heap w' !! 1%positive = Some b' /\
    fixed_cost b' = lit 100.
Proof.
  destruct (new_month_twice_charges_twice (F := float) {[ 1%positive := Bill.new ]}
              1%positive Bill.new 1 2020) as [Hmtm _]; [reflexivity |].
  destruct (Hmtm (MTM.init (mkDate 2020 1 15))) as (w' & b' & Hrun & Hb' & Hfixed).
  exists w', b'. split; [exact Hrun |]. split; [exact Hb' |].
  rewrite Hfixed. reflexivity.
Defined.

(** ** A closed line still bills calls *)

(** X18. Closing a line does not stop the billing of calls: for every
    kind of contract, after [cancel_contract] has returned, [bill_call]
    still returns and puts the call on the same bill, in the same way, as
    it would have done before the closing. *)
Theorem bill_call_after_cancel `{Arith F} (call : Call) :
  (forall (w w' : World F MTMContract) (amount : F),
     cancel_contract w = Ok amount w' ->
     exists w1 w1' : World F MTMContract,
       bill_call call w = Ok tt w1 /\ bill_call call w' = Ok tt w1' /\
       heap w1' = heap w1) /\
  (forall (w w' : World F TermContract) (amount : F),
     cancel_contract w = Ok amount w' ->
     exists w1 w1' : World F TermContract,
       bill_call call w = Ok tt w1 /\ bill_call call w' = Ok tt w1' /\
       heap w1' = heap w1) /\
  (forall (w w' : World F (PrepaidContract F)) (amount : F),
     cancel_contract w = Ok amount w' ->
     exists w1 w1' : World F (PrepaidContract F),
       bill_call call w = Ok tt w1 /\ bill_call call w' = Ok tt w1' /\
       heap w1' = heap w1).
Proof.
  split; [| split]; intros [c h] w' amount Hrun.
  - destruct (mtm_cancel_contract_inv _ _ _ Hrun) as (r & b & Hr & Hb & _ & ->).
    simpl in *. eexists _, _. split; [| split].
    + apply (base_bill_call_Ok (HI := MTM_inherits) (HC := MTM_class)
               (fun _ => eq_refl) c h r b call Hr Hb).
    + eapply (base_bill_call_Ok (HI := MTM_inherits) (HC := MTM_class)
                (fun _ => eq_refl)); [reflexivity | exact Hb].
    + done.
  - destruct (term_cancel_contract_inv _ _ _ Hrun) as (r & b & Hr & Hb & _ & ->).
    simpl in *. eexists _, _. split; [| split].
    + apply (term_bill_call_Ok c h r b call Hr Hb).
    + eapply term_bill_call_Ok; [reflexivity | exact Hb].
    + done.
  - destruct (prepaid_cancel_contract_inv _ _ _ Hrun) as (r & b & Hr & Hb & _ & ->).
    simpl in *. eexists _, _. split; [| split].
    + apply (base_bill_call_Ok (HI := Prepaid_inherits) (HC := Prepaid_class)
               (fun _ => eq_refl) c h r b call Hr Hb).
    + eapply (base_bill_call_Ok (HI := Prepaid_inherits) (HC := Prepaid_class)
                (fun _ => eq_refl)); [reflexivity | exact Hb].
    + done.
Qed.

Lemma bill_call_after_cancel_witness :
  let c := mkMTM {| start := Some (mkDate 2020 1 15); bill := Some 1%positive |} in
  let b : Bill float := Bill.set_rates "MTM" MTM_MINS_COST (Bill.add_fixed_cost (lit 50) Bill.new) in
  let w := mkWorld c {[ 1%positive := b ]} in
  exists w1 w1' : World float MTMContract,
    bill_call (mkCall 61) w = Ok tt w1 /\
    bill_call (mkCall 61) (final (cancel_contract w)) = Ok tt w1' /\
    heap w1' = heap w1.
Proof.
  intros c b w.
  destruct (bill_call_after_cancel (mkCall 61)) as (Hmtm & _ & _).
  apply (Hmtm w (final (cancel_contract w)) (Bill.get_cost b)).
  reflexivity.
Defined.

(** ** A driver that keeps to the protocol meets no exception *)

Lemma prepaid_carried_is_Some `{Arith F} (w : World F (PrepaidContract F)) (r0 : loc) (nb : Bill F) :
  current_bill (fun _ => True) w ->
  is_Some (carried_balance (self w) (<[r0 := nb]> (heap w))).
Proof.
  intros Hbill. unfold carried_balance.
  destruct (bill (prepaid_base (self w))) as [p |] eqn:Hp; [| done].
  destruct (Hbill p Hp) as (pb & Hpb & _).
  rewrite lookup_insert. case_decide; [done |]. by rewrite Hpb.
Qed.

(** X19. From every state that a driver reaches from a new contract by
    starting months with new bills and billing calls, the next month
    starts without raising, and, once a month has been started, so does
    the billing of any call; this holds for the three kinds of
    contract. *)
Theorem driver_never_raises `{Arith F} :
  (forall (s : date) (w : World F MTMContract),
     reachable (MTM.init s) w ->
     (forall month_ year_, exists w', cycle month_ year_ w = Ok tt w') /\
     (is_Some (bill (base (self w))) ->
      forall call, exists w', bill_call call w = Ok tt w')) /\
  (forall (s e : date) (w : World F TermContract),
     reachable (Term.init s e) w ->
     (forall month_ year_, exists w', cycle month_ year_ w = Ok tt w') /\
     (is_Some (bill (base (self w))) ->
      forall call, exists w', bill_call call w = Ok tt w')) /\
  (forall (s : date) (credit : F) (w : World F (PrepaidContract F)),
     reachable (Prepaid.init s credit) w ->
     (forall month_ year_, exists w', cycle month_ year_ w = Ok tt w') /\
     (is_Some (bill (base (self w))) ->
      forall call, exists w', bill_call call w = Ok tt w')).
Proof.
  split; [| split].
  - intros s w Hreach.
    assert (Hbill : current_bill (fun _ => True) w).
    { eapply (mtm_reachable_bill (fun _ => True)); [done .. | exact Hreach]. }
    split.
    + intros month_ year_. rewrite cycle_unfold. eexists.
      apply mtm_new_month_Ok. apply lookup_insert_eq.
    + intros [r Hr] call. destruct (Hbill r Hr) as (b & Hb & _).
      destruct w as [c h]. eexists.
      apply (base_bill_call_Ok (HI := MTM_inherits) (HC := MTM_class)
               (fun _ => eq_refl) c h r b call Hr Hb).
  - intros s e w Hreach.
    assert (Hterm : start (term_base (self w)) = Some s /\
                    end_ (self w) = Some e /\
                    current_bill (fun _ => True) w).
    { eapply (term_reachable_bill (fun _ => True)); [done .. | exact Hreach]. }
    destruct Hterm as (Hs & He & Hbill).
    split.
    + intros month_ year_. rewrite cycle_unfold. eexists.
      eapply term_new_month_Ok; [exact Hs | exact He | apply lookup_insert_eq].
    + intros [r Hr] call. destruct (Hbill r Hr) as (b & Hb & _).
      destruct w as [c h]. eexists.
      apply (term_bill_call_Ok c h r b call Hr Hb).
  - intros s credit w Hreach.
    pose proof (prepaid_reachable_bill s credit w Hreach) as Hbill.
    split.
    + intros month_ year_. rewrite cycle_unfold.
      destruct (prepaid_carried_is_Some w (fresh (dom (heap w))) Bill.new Hbill)
        as [bal Hbal].
      eexists.
      eapply prepaid_new_month_Ok; [exact Hbal | apply lookup_insert_eq].
    + intros [r Hr] call. destruct (Hbill r Hr) as (b & Hb & _).
      destruct w as [c h]. eexists.
      apply (base_bill_call_Ok (HI := Prepaid_inherits) (HC := Prepaid_class)
               (fun _ => eq_refl) c h r b call Hr Hb).
Qed.

Lemma driver_never_raises_witness :
  let w : World float TermContract :=
    final ((cycle 1 2020;; bill_call (mkCall 125))
             (mkWorld (Term.init (mkDate 2020 1 15) (mkDate 2021 1 15)) ∅)) in
  (exists w', cycle 2 2020 w = Ok tt w') /\
  (exists w', bill_call (mkCall 4000) w = Ok tt w').
Proof.
  intros w.
  destruct (driver_never_raises (F := float)) as (_ & Hterm & _).
  destruct (Hterm (mkDate 2020 1 15) (mkDate 2021 1 15) w) as [Hcycle Hcall].
  - set (w0 := mkWorld (F := float)
                 (Term.init (mkDate 2020 1 15) (mkDate 2021 1 15)) ∅).
    set (w1 := final (cycle 1 2020 w0)).
    apply (reach_call _ w1 (mkCall 125) w); [| simpl; lia | by vm_compute].
    apply (reach_cycle _ w0 1 2020 w1); [| by vm_compute].
    apply reach_init.
  - split; [apply Hcycle |]. apply Hcall. vm_compute. by eexists.
Defined.
